(** * Librarian: the clone orchestrator and the standing-order engine

    A shallow embedding of
    - [librarian_background/create_clone.py] (module [CreateClone]) and
    - [librarian_server/search.py] (module [Search]),
    with the properties of the replication engine stated and proved over
    those definitions. *)

From Stdlib Require Import ZArith QArith Qround Lia Bool Ascii String.
From stdpp Require Import base option list strings gmap.

Set Warnings "-register-all".

Open Scope Z_scope.
Open Scope string_scope.

(* ===================================================================== *)
(** * create_clone.py                                                     *)
(* ===================================================================== *)

Module CreateClone.

(** Modelled from the spec: the [TransferStatus] enumeration of the ORM
    (the orm module is not part of the sources); section 4.4 of the spec
    names the four states of the CloneTransfer state machine. *)
Inductive TransferStatus := PENDING | STAGED | COMPLETED | FAILED.

#[global] Instance TransferStatus_eq_dec : EqDecision TransferStatus.
Proof. solve_decision. Defined.

(** [Instance.deletion_policy], by its name: the task only copies it. *)
Definition DeletionPolicy : Type := string.

(** A File, identified by its unique name. *)
Record File := { file_name : string; file_size : Z }.

(** Rows.  The primary key [id] of a row is its position in its table:
    rows are appended by [session.add] and never deleted by this task. *)
Record StoreMetadata (TM : Type) := {
  store_name : string;
  transfer_managers : list (string * TM)
}.
Arguments store_name {TM} _.
Arguments transfer_managers {TM} _.

Record Instance := {
  path : string;
  file : File;
  store : nat;
  deletion_policy : DeletionPolicy;
  created_time : Z
}.

Record CloneTransfer := {
  source_store_id : nat;
  destination_store_id : nat;
  source_instance_id : nat;
  destination_instance_id : option nat;
  transfer_manager_name : option string;
  status : TransferStatus;
  start_time : Z;
  end_time : option Z
}.

Record Database (TM : Type) := {
  stores : list (StoreMetadata TM);
  instances : list Instance;
  transfers : list CloneTransfer
}.
Arguments stores {TM} _.
Arguments instances {TM} _.
Arguments transfers {TM} _.

(** ** The store capability interface

    What the calls on [store_manager] can answer, as the [try]/[except]
    blocks of [on_call] distinguish it. *)
Inductive StageResult :=
| Staged (staging_name staged_path : string)
| StageValueError.

Inductive TransferResult :=
| TransferReturned (success : bool)
| TransferFileNotFoundError.

Inductive CommitResult :=
| Committed
| CommitFileExistsError.

(** The outside world: the wall clock and the store managers.  Each
    capability takes the id of the store whose manager is called. *)
Class Environment (World TM : Type) := {
  now : World -> Z;
  stage : nat -> Z -> string -> World -> StageResult * World;
  transfer_out : nat -> string -> string -> TM -> World -> TransferResult * World;
  commit : nat -> string -> string -> World -> CommitResult * World;
  unstage : nat -> string -> World -> World
}.

(** ** What a run leaves behind: the logger lines of [on_call], the calls
    it made on the store managers, and every write of a transfer status. *)
Inductive Event :=
| LogStoreMissing (name : string)
| LogAlreadyExists
| LogTooLarge (fname : string)
| LogManagerFailed (p tm_name : string)
| LogFileNotFound (p : string)
| LogTransferFailed (p : string)
| LogCommitExists (p : string)
| LogSummary (successful total unnecessary : nat)
| CallStage (size : Z) (fname : string)
| CallTransferOut (store_path destination_path tm_name : string)
| CallCommit (staging_path store_path : string)
| CallUnstage (staging_name : string)
| SetStatus (transfer_id : nat) (s : TransferStatus).

Record State (World TM : Type) := {
  db : Database TM;
  world : World;
  trace : list Event
}.
Arguments db {World TM} _.
Arguments world {World TM} _.
Arguments trace {World TM} _.

Inductive Outcome := CancelJob | Returned.

Record Task := {
  clone_from : string;
  clone_to : string;
  age_in_days : Z
}.

Section OnCall.
Context {World TM : Type} `{Env : Environment World TM}.

Abbreviation St := (State World TM).

Definition emit (e : Event) (st : St) : St :=
  {| db := db st; world := world st; trace := trace st ++ [e] |}.

Definition set_world (w : World) (st : St) : St :=
  {| db := db st; world := w; trace := trace st |}.

Definition set_db (d : Database TM) (st : St) : St :=
  {| db := d; world := world st; trace := trace st |}.

(** [query(StoreMetadata).filter(StoreMetadata.name == name).first()] *)
Fixpoint first_store (name : string) (id : nat) (l : list (StoreMetadata TM))
  : option (nat * StoreMetadata TM) :=
  match l with
  | [] => None
  | s :: rest =>
      if String.eqb (store_name s) name then Some (id, s)
      else first_store name (S id) rest
  end.

Definition get_store (name : string) (d : Database TM)
  : option (nat * StoreMetadata TM) :=
  first_store name 0%nat (stores d).

(** The rows of a table together with their ids. *)
Definition rows {A} (l : list A) : list (nat * A) := imap (fun i x => (i, x)) l.

(** [query(Instance).filter(Instance.store == store_from)
      .filter(Instance.created_time > start_time).all()] *)
Definition select_instances (store_from : nat) (start : Z) (d : Database TM)
  : list (nat * Instance) :=
  filter (fun r => store (snd r) = store_from /\ start < created_time (snd r))
         (rows (instances d)).

(** [query(Instance).filter(Instance.store == store_to)
      .filter(Instance.file == instance.file).first()], as a truth value. *)
Definition on_store (store_to : nat) (f : File) (i : Instance) : bool :=
  bool_decide (store i = store_to) && String.eqb (file_name (file i)) (file_name f).

Definition already_cloned (store_to : nat) (f : File) (d : Database TM) : bool :=
  existsb (on_store store_to f) (instances d).

(** Modelled from the spec: [CloneTransfer.new_transfer] (the orm module is
    not part of the sources) makes a row in state PENDING for the given
    stores and source instance, started now, with no destination instance,
    manager or end time yet. *)
Definition new_transfer (src dst inst : nat) (t : Z) : CloneTransfer :=
  {| source_store_id := src; destination_store_id := dst;
     source_instance_id := inst; destination_instance_id := None;
     transfer_manager_name := None; status := PENDING;
     start_time := t; end_time := None |}.

(** [session.add(transfer)]; [session.commit()]: the row gets its id. *)
Definition add_transfer (t : CloneTransfer) (st : St) : nat * St :=
  let id := length (transfers (db st)) in
  (id, emit (SetStatus id (status t))
         (set_db {| stores := stores (db st); instances := instances (db st);
                    transfers := transfers (db st) ++ [t] |} st)).

(** [session.add(new_instance)]; [session.commit()] *)
Definition add_instance (i : Instance) (st : St) : nat * St :=
  let id := length (instances (db st)) in
  (id, set_db {| stores := stores (db st); instances := instances (db st) ++ [i];
                 transfers := transfers (db st) |} st).

(** An attribute write on the transfer object held by the session. *)
Definition update_transfer (id : nat) (f : CloneTransfer -> CloneTransfer) (st : St) : St :=
  set_db {| stores := stores (db st); instances := instances (db st);
            transfers := alter f id (transfers (db st)) |} st.

Definition with_status (s : TransferStatus) (t : CloneTransfer) : CloneTransfer :=
  {| source_store_id := source_store_id t;
     destination_store_id := destination_store_id t;
     source_instance_id := source_instance_id t;
     destination_instance_id := destination_instance_id t;
     transfer_manager_name := transfer_manager_name t;
     status := s; start_time := start_time t; end_time := end_time t |}.

Definition with_manager (n : option string) (t : CloneTransfer) : CloneTransfer :=
  {| source_store_id := source_store_id t;
     destination_store_id := destination_store_id t;
     source_instance_id := source_instance_id t;
     destination_instance_id := destination_instance_id t;
     transfer_manager_name := n;
     status := status t; start_time := start_time t; end_time := end_time t |}.

Definition with_completion (dest : nat) (e : Z) (t : CloneTransfer) : CloneTransfer :=
  {| source_store_id := source_store_id t;
     destination_store_id := destination_store_id t;
     source_instance_id := source_instance_id t;
     destination_instance_id := Some dest;
     transfer_manager_name := transfer_manager_name t;
     status := status t; start_time := start_time t; end_time := Some e |}.

Definition set_status (id : nat) (s : TransferStatus) (st : St) : St :=
  emit (SetStatus id s) (update_transfer id (with_status s) st).

(** Modelled from the spec: [CloneTransfer.fail_transfer] (the orm module is
    not part of the sources) marks the transfer FAILED. *)
Definition fail_transfer (id : nat) (st : St) : St := set_status id FAILED st.

(** The [for tm_name, transfer_manager in store_to.transfer_managers.items()]
    loop.  Its variables [success] and [tm_name] outlive it. *)
Fixpoint transfer_loop (store_from : nat) (i : Instance) (staged_path : string)
    (transfer : nat) (tms : list (string * TM))
    (success : bool) (tm_name : option string) (st : St)
  : bool * option string * St :=
  match tms with
  | [] => (success, tm_name, st)
  | (n, transfer_manager) :: rest =>
      let st := emit (CallTransferOut (path i) staged_path n) st in
      match transfer_out store_from (path i) staged_path transfer_manager (world st) with
      | (TransferReturned ok, w) =>
          let st := set_world w st in
          if negb ok then
            let st := emit (LogManagerFailed (path i) n) st in
            let st := fail_transfer transfer st in
            transfer_loop store_from i staged_path transfer rest ok (Some n) st
          else
            transfer_loop store_from i staged_path transfer rest ok (Some n) st
      | (TransferFileNotFoundError, w) =>
          let st := set_world w st in
          let st := emit (LogFileNotFound (path i)) st in
          let st := fail_transfer transfer st in
          transfer_loop store_from i staged_path transfer rest success (Some n) st
      end
  end.

(** The counters of the run. *)
Record Counts := { successful_clones : nat; unnecessary_clones : nat }.

Definition count_success (c : Counts) : Counts :=
  {| successful_clones := S (successful_clones c);
     unnecessary_clones := unnecessary_clones c |}.

Definition count_unnecessary (c : Counts) : Counts :=
  {| successful_clones := successful_clones c;
     unnecessary_clones := S (unnecessary_clones c) |}.

(** The body of [for instance in instances]. *)
Definition clone_instance (store_from store_to : nat) (to_managers : list (string * TM))
    (r : nat * Instance) (acc : Counts * St) : Counts * St :=
  let '(c, st) := acc in
  let '(instance_id, instance) := r in
  if already_cloned store_to (file instance) (db st) then
    (count_unnecessary c, emit LogAlreadyExists st)
  else
    let '(transfer, st) :=
      add_transfer (new_transfer store_from store_to instance_id (now (world st))) st in
    let st := emit (CallStage (file_size (file instance)) (file_name (file instance))) st in
    match stage store_to (file_size (file instance)) (file_name (file instance)) (world st) with
    | (StageValueError, w) =>
        let st := set_world w st in
        let st := emit (LogTooLarge (file_name (file instance))) st in
        (c, fail_transfer transfer st)
    | (Staged staging_name staged_path, w) =>
        let st := set_world w st in
        let '(success, tm_name, st) :=
          transfer_loop store_from instance staged_path transfer to_managers false None st in
        if negb success then
          let st := emit (LogTransferFailed (path instance)) st in
          (c, fail_transfer transfer st)
        else
          let st := update_transfer transfer (with_manager tm_name) st in
          let st := set_status transfer STAGED st in
          let st := emit (CallCommit staged_path (file_name (file instance))) st in
          match commit store_to staged_path (file_name (file instance)) (world st) with
          | (CommitFileExistsError, w) =>
              let st := set_world w st in
              let st := emit (LogCommitExists (path instance)) st in
              let st := emit (CallUnstage staging_name) st in
              let st := set_world (unstage store_to staging_name (world st)) st in
              (c, fail_transfer transfer st)
          | (Committed, w) =>
              let st := set_world w st in
              let st := emit (CallUnstage staging_name) st in
              let st := set_world (unstage store_to staging_name (world st)) st in
              (* Instance.new_instance stamps the row with the time it is made *)
              let '(new_id, st) :=
                add_instance {| path := path instance; file := file instance;
                                store := store_to;
                                deletion_policy := deletion_policy instance;
                                created_time := now (world st) |} st in
              let st := update_transfer transfer (with_completion new_id (now (world st))) st in
              let st := set_status transfer COMPLETED st in
              (count_success c, st)
          end
    end.

Definition seconds_per_day : Z := 86400.

(** The loop of [on_call], instance after instance. *)
Definition instances_loop (store_from store_to : nat) (tms : list (string * TM))
    (selected : list (nat * Instance)) (c : Counts) (st : St) : Counts * St :=
  foldl (fun acc r => clone_instance store_from store_to tms r acc) (c, st) selected.

Definition on_call (task : Task) (st : St) : Outcome * St :=
  match get_store (clone_from task) (db st) with
  | None => (CancelJob, emit (LogStoreMissing (clone_from task)) st)
  | Some (store_from, _) =>
      match get_store (clone_to task) (db st) with
      | None => (CancelJob, emit (LogStoreMissing (clone_to task)) st)
      | Some (store_to, to_meta) =>
          let start := now (world st) - age_in_days task * seconds_per_day in
          let selected := select_instances store_from start (db st) in
          let '(c, st) :=
            instances_loop store_from store_to (transfer_managers to_meta) selected
                           {| successful_clones := 0; unnecessary_clones := 0 |} st in
          (Returned,
           emit (LogSummary (successful_clones c) (length selected) (unnecessary_clones c)) st)
      end
  end.

End OnCall.

(** ** A concrete environment, for evaluating runs

    A transfer manager is described by what a transfer through it answers;
    the destination stages files up to its capacity and refuses to commit
    over a store path that is already taken. *)
Record Disk := { clock : Z; capacity : Z; taken : list string }.

Definition disk_stage (sid : nat) (size : Z) (fname : string) (w : Disk)
  : StageResult * Disk :=
  if (size <=? capacity w)%Z then (Staged ("stg-" ++ fname) ("staging/" ++ fname), w)
  else (StageValueError, w).

Definition disk_commit (sid : nat) (staging_path store_path : string) (w : Disk)
  : CommitResult * Disk :=
  if existsb (String.eqb store_path) (taken w) then (CommitFileExistsError, w)
  else (Committed, {| clock := clock w; capacity := capacity w;
                      taken := store_path :: taken w |}).

#[global] Instance disk_env : Environment Disk TransferResult := {|
  now := clock;
  stage := disk_stage;
  transfer_out := fun _ _ _ tm w => (tm, w);
  commit := disk_commit;
  unstage := fun _ _ w => w
|}.

Definition file_F : File := {| file_name := "F"; file_size := 10 |}.

Definition instance_F_on_A : Instance :=
  {| path := "2459000/F"; file := file_F; store := 0;
     deletion_policy := "DISALLOWED"; created_time := 1000000 |}.

(** Store A (id 0) holds one instance of F; store B (id 1) is empty and is
    reached through the transfer managers [tms]. *)
Definition two_stores (tms : list (string * TransferResult)) : Database TransferResult :=
  {| stores := [ {| store_name := "A"; transfer_managers := [] |};
                 {| store_name := "B"; transfer_managers := tms |} ];
     instances := [ instance_F_on_A ];
     transfers := [] |}.

Definition start_state (cap : Z) (tms : list (string * TransferResult))
  : State Disk TransferResult :=
  {| db := two_stores tms;
     world := {| clock := 1000010; capacity := cap; taken := [] |};
     trace := [] |}.

Definition clone_A_to_B : Task :=
  {| clone_from := "A"; clone_to := "B"; age_in_days := 1 |}.

Definition ok : TransferResult := TransferReturned true.
Definition ko : TransferResult := TransferReturned false.

(** ** The vocabulary of the properties *)

(** FAILED and COMPLETED are the terminal states. *)
Definition terminal (s : TransferStatus) : Prop := s = COMPLETED \/ s = FAILED.

(** Row [k] of the transfer table of [after] was created after [before]. *)
Definition created_since {World TM} (before after : State World TM)
    (k : nat) (t : CloneTransfer) : Prop :=
  (length (transfers (db before)) <= k)%nat /\ transfers (db after) !! k = Some t.

(** The status writes of a trace that concern transfer [k], in order. *)
Definition status_history (k : nat) (tr : list Event) : list TransferStatus :=
  omap (fun e => match e with
                 | SetStatus k' s => if Nat.eqb k' k then Some s else None
                 | _ => None
                 end) tr.

(** The managers a trace shows a transfer was attempted through, in order. *)
Definition managers_attempted (tr : list Event) : list string :=
  omap (fun e => match e with
                 | CallTransferOut _ _ tm_name => Some tm_name
                 | _ => None
                 end) tr.

Section Vocabulary.
Context {World TM : Type} `{Env : Environment World TM}.

Abbreviation St := (State World TM).

Open Scope list_scope.

(** What one pass of the body of [for instance in instances] did. *)
Inductive Pass (store_to : nat) (r : nat * Instance) (c : Counts) (st : St)
    (c' : Counts) (st' : St) : Prop :=
| Skipped :
    already_cloned store_to (file r.2) (db st) = true ->
    db st' = db st ->
    trace st' = trace st ++ [LogAlreadyExists] ->
    c' = count_unnecessary c ->
    Pass store_to r c st c' st'
| Failed t evs :
    already_cloned store_to (file r.2) (db st) = false ->
    stores (db st') = stores (db st) ->
    instances (db st') = instances (db st) ->
    transfers (db st') = transfers (db st) ++ [t] ->
    status t = FAILED ->
    trace st' = trace st ++ evs ->
    c' = c ->
    Pass store_to r c st c' st'
| Completed t evs staged_path ct :
    already_cloned store_to (file r.2) (db st) = false ->
    stores (db st') = stores (db st) ->
    instances (db st') =
      instances (db st) ++ [ {| path := path r.2; file := file r.2; store := store_to;
                                deletion_policy := deletion_policy r.2;
                                created_time := ct |} ] ->
    transfers (db st') = transfers (db st) ++ [t] ->
    status t = COMPLETED ->
    source_instance_id t = r.1 ->
    destination_store_id t = store_to ->
    destination_instance_id t = Some (length (instances (db st))) ->
    trace st' = trace st ++ evs ->
    CallCommit staged_path (file_name (file r.2)) ∈ evs ->
    c' = count_success c ->
    Pass store_to r c st c' st'.

(** What a completed transfer [t] stands for in state [st]: the instance it
    was cloned from is one of [done], the instance it recorded on the
    destination store copies that one, and the commit went to the bare
    file name. *)
Definition clone_recorded (store_to : nat) (done : list (nat * Instance)) (st : St)
    (t : CloneTransfer) : Prop :=
  exists i d n staged_path,
    (source_instance_id t, i) ∈ done /\
    destination_instance_id t = Some d /\
    instances (db st) !! d = Some n /\
    path n = path i /\ file n = file i /\ store n = destination_store_id t /\
    deletion_policy n = deletion_policy i /\
    CallCommit staged_path (file_name (file i)) ∈ trace st.

(** How far a run has got from [st0] once the instances [done] are dealt
    with. *)
Record Progress (store_to : nat) (st0 st : St) (done : list (nat * Instance)) : Prop := {
  same_stores : stores (db st) = stores (db st0);
  more_instances :
    exists news, instances (db st) = instances (db st0) ++ news /\
                 Forall (fun n => store n = store_to) news;
  more_transfers :
    exists newt, transfers (db st) = transfers (db st0) ++ newt /\
                 Forall (fun t => terminal (status t)) newt /\
                 Forall (fun t => status t = COMPLETED -> clone_recorded store_to done st t)
                        newt /\
                 (Forall (fun t => status t = COMPLETED) newt ->
                  Forall (fun r => already_cloned store_to (file r.2) (db st) = true) done);
  more_trace : exists evs, trace st = trace st0 ++ evs
}.

(** A run either is cancelled, and then only logs the missing store, or
    resolves both stores and loops over the instances it selected. *)
Inductive RunOf (task : Task) (st : St) : Outcome -> St -> Prop :=
| Cancelled name :
    get_store (clone_from task) (db st) = None \/
    get_store (clone_to task) (db st) = None ->
    RunOf task st CancelJob (emit (LogStoreMissing name) st)
| Ran store_from from_meta store_to to_meta selected c st' :
    get_store (clone_from task) (db st) = Some (store_from, from_meta) ->
    get_store (clone_to task) (db st) = Some (store_to, to_meta) ->
    selected = select_instances store_from
                 (now (world st) - age_in_days task * seconds_per_day) (db st) ->
    instances_loop store_from store_to (transfer_managers to_meta) selected
                   {| successful_clones := 0; unnecessary_clones := 0 |} st = (c, st') ->
    Progress store_to st st' selected ->
    RunOf task st Returned
          (emit (LogSummary (successful_clones c) (length selected) (unnecessary_clones c))
                st').

End Vocabulary.

(** ** More vocabulary: what one pass wrote, event by event *)

Section Detail.
Context {World TM : Type} `{Env : Environment World TM}.

Abbreviation St := (State World TM).

Open Scope list_scope.

(** The events the manager loop writes. *)
Definition is_loop_event (e : Event) : bool :=
  match e with
  | CallTransferOut _ _ _ | LogManagerFailed _ _ | LogFileNotFound _
  | SetStatus _ FAILED => true
  | _ => false
  end.

Definition is_stage (e : Event) : bool :=
  match e with CallStage _ _ => true | _ => false end.
Definition is_commit (e : Event) : bool :=
  match e with CallCommit _ _ => true | _ => false end.
Definition is_unstage (e : Event) : bool :=
  match e with CallUnstage _ => true | _ => false end.
Definition is_too_large (e : Event) : bool :=
  match e with LogTooLarge _ => true | _ => false end.
Definition is_transfer_failed (e : Event) : bool :=
  match e with LogTransferFailed _ => true | _ => false end.

Definition count_events (p : Event -> bool) (tr : list Event) : nat :=
  length (List.filter p tr).

Definition count_status (s : TransferStatus) (l : list CloneTransfer) : nat :=
  length (List.filter (fun t => bool_decide (status t = s)) l).

(** What the answers of the managers leave in [success]: a returned value
    replaces it, a [FileNotFoundError] leaves it. *)
Definition success_after (answers : list TransferResult) (success : bool) : bool :=
  foldl (fun s a => match a with
                    | TransferReturned b => b
                    | TransferFileNotFoundError => s
                    end) success answers.

(** The four ways a pass that created a transfer can end, with the row and
    the events it leaves.  [k] is the id of the row, [nt] the row as
    [new_transfer] made it. *)
Inductive Ending (store_to : nat) (r : nat * Instance) (k : nat) (nt : CloneTransfer)
    (st : St) : CloneTransfer -> list Instance -> list Event -> Prop :=
| TooLarge :
    Ending store_to r k nt st (with_status FAILED nt) []
      [SetStatus k PENDING;
       CallStage (file_size (file r.2)) (file_name (file r.2));
       LogTooLarge (file_name (file r.2)); SetStatus k FAILED]
| TransferFailed loop_events :
    Forall (fun e => is_loop_event e = true) loop_events ->
    Ending store_to r k nt st (with_status FAILED nt) []
      ([SetStatus k PENDING;
        CallStage (file_size (file r.2)) (file_name (file r.2))]
       ++ loop_events
       ++ [LogTransferFailed (path r.2); SetStatus k FAILED])
| CommitRefused loop_events staging_name staged_path tm_name :
    Forall (fun e => is_loop_event e = true) loop_events ->
    Ending store_to r k nt st (with_status FAILED (with_manager (Some tm_name) nt)) []
      ([SetStatus k PENDING;
        CallStage (file_size (file r.2)) (file_name (file r.2))]
       ++ loop_events
       ++ [SetStatus k STAGED; CallCommit staged_path (file_name (file r.2));
           LogCommitExists (path r.2); CallUnstage staging_name; SetStatus k FAILED])
| Cloned loop_events staging_name staged_path tm_name created ended :
    Forall (fun e => is_loop_event e = true) loop_events ->
    Ending store_to r k nt st
      (with_status COMPLETED
         (with_completion (length (instances (db st))) ended
            (with_manager (Some tm_name) nt)))
      [ {| path := path r.2; file := file r.2; store := store_to;
           deletion_policy := deletion_policy r.2; created_time := created |} ]
      ([SetStatus k PENDING;
        CallStage (file_size (file r.2)) (file_name (file r.2))]
       ++ loop_events
       ++ [SetStatus k STAGED; CallCommit staged_path (file_name (file r.2));
           CallUnstage staging_name; SetStatus k COMPLETED]).

(** One pass of the loop body, in full. *)
Inductive PassDetail (store_from store_to : nat) (r : nat * Instance)
    (c : Counts) (st : St) (c' : Counts) (st' : St) : Prop :=
| DetailSkipped :
    already_cloned store_to (file r.2) (db st) = true ->
    st' = emit LogAlreadyExists st ->
    c' = count_unnecessary c ->
    PassDetail store_from store_to r c st c' st'
| DetailCreated t news evs :
    already_cloned store_to (file r.2) (db st) = false ->
    Ending store_to r (length (transfers (db st)))
           (new_transfer store_from store_to r.1 (now (world st))) st t news evs ->
    stores (db st') = stores (db st) ->
    instances (db st') = instances (db st) ++ news ->
    transfers (db st') = transfers (db st) ++ [t] ->
    trace st' = trace st ++ evs ->
    c' = (if bool_decide (status t = COMPLETED) then count_success c else c) ->
    PassDetail store_from store_to r c st c' st'.

(** The books of a run from [st0], once the instances [done] are dealt
    with: what was added, and how the counters and the events add up. *)
Record Ledger (st0 st : St) (done : list (nat * Instance)) (c : Counts) : Prop := {
  ledger_stores : stores (db st) = stores (db st0);
  ledger_rows :
    exists news newt evs,
      instances (db st) = instances (db st0) ++ news /\
      transfers (db st) = transfers (db st0) ++ newt /\
      trace st = trace st0 ++ evs /\
      (length newt + unnecessary_clones c = length done)%nat /\
      successful_clones c = length news /\
      successful_clones c = count_status COMPLETED newt /\
      count_events is_stage evs = length newt /\
      count_events is_unstage evs = count_events is_commit evs /\
      count_events is_stage evs
      = (count_events is_too_large evs + count_events is_transfer_failed evs
         + count_events is_commit evs)%nat /\
      Forall (fun t => (status t = COMPLETED \/ status t = FAILED) /\
                       (is_Some (destination_instance_id t) <-> status t = COMPLETED) /\
                       (status t = COMPLETED ->
                        is_Some (transfer_manager_name t) /\ is_Some (end_time t)))
             newt
}.

(** No store holds two instances of one file. *)
Definition one_instance_per_file (d : Database TM) : Prop :=
  forall i j a b,
    instances d !! i = Some a -> instances d !! j = Some b ->
    store a = store b -> file_name (file a) = file_name (file b) -> i = j.

End Detail.

End CreateClone.

(* ===================================================================== *)
(** * search.py                                                           *)
(* ===================================================================== *)

Module Search.

(** ** Searches as parsed JSON

    What [json.loads] returns in Python 2, the language of the source:
    [None], [bool], [int] or [long], [float], [unicode], [list] and [dict]
    values.  [JFloat] is a finite float;
    [JInfinity] and [JNaN] are the floats read from [Infinity], [-Infinity]
    and [NaN].  A [dict] is kept as its list of items. *)
Inductive json :=
| JNone
| JBool (b : bool)
| JInt (z : Z)
| JFloat (q : Q)
| JInfinity (negative : bool)
| JNaN
| JUnicode (s : string)
| JList (l : list json)
| JDict (items : list (string * json)).

(** Induction over a JSON value and, with it, over the values it holds. *)
Section JsonInduction.
Variable P : json -> Prop.
Hypothesis none_case : P JNone.
Hypothesis bool_case : forall b, P (JBool b).
Hypothesis int_case : forall z, P (JInt z).
Hypothesis float_case : forall q, P (JFloat q).
Hypothesis infinity_case : forall negative, P (JInfinity negative).
Hypothesis nan_case : P JNaN.
Hypothesis unicode_case : forall s, P (JUnicode s).
Hypothesis list_case : forall l, Forall P l -> P (JList l).
Hypothesis dict_case : forall items, Forall (fun kv => P kv.2) items -> P (JDict items).

Fixpoint json_induction (j : json) : P j :=
  match j with
  | JNone => none_case
  | JBool b => bool_case b
  | JInt z => int_case z
  | JFloat q => float_case q
  | JInfinity negative => infinity_case negative
  | JNaN => nan_case
  | JUnicode s => unicode_case s
  | JList l =>
      list_case l
        ((fix all (l : list json) : Forall P l :=
            match l with
            | [] => @List.Forall_nil _ P
            | x :: rest => @List.Forall_cons _ P x rest (json_induction x) (all rest)
            end) l)
  | JDict items =>
      dict_case items
        ((fix all (items : list (string * json)) : Forall (fun kv => P kv.2) items :=
            match items with
            | [] => @List.Forall_nil _ (fun kv => P kv.2)
            | kv :: rest =>
                @List.Forall_cons _ (fun kv => P kv.2) kv rest (json_induction kv.2) (all rest)
            end) items)
  end.
End JsonInduction.

(** [sys.maxint] of a 64-bit build.  In Python 2 an integer within
    [-maxint - 1 .. maxint] is an [int]; outside of it [json.loads] makes a
    [long], which is not an instance of [int]. *)
Definition maxint : Z := 9223372036854775807.

Definition is_machine_int (z : Z) : bool :=
  ((- maxint - 1 <=? z) && (z <=? maxint))%Z.

(** [payload.__class__.__name__] *)
Definition class_name (payload : json) : string :=
  match payload with
  | JNone => "NoneType"
  | JBool _ => "bool"
  | JInt z => if is_machine_int z then "int" else "long"
  | JFloat _ | JInfinity _ | JNaN => "float"
  | JUnicode _ => "unicode"
  | JList _ => "list"
  | JDict _ => "dict"
  end.

(** The numbers a payload can be: a finite value (an [int], a [bool] or a
    finite [float]), an infinity or a NaN. *)
Inductive Number :=
| finite (q : Q)
| infinity (negative : bool)
| nan.

Coercion finite : Q >-> Number.

(** [isinstance(payload, (int, float))]: [bool] is a subclass of [int], and
    [True] and [False] compare as 1 and 0; a [long] is neither. *)
Definition as_number (payload : json) : option Number :=
  match payload with
  | JInt z => if is_machine_int z then Some (finite (inject_Z z)) else None
  | JBool b => Some (finite (inject_Z (Z.b2z b)))
  | JFloat q => Some (finite q)
  | JInfinity negative => Some (infinity negative)
  | JNaN => Some nan
  | _ => None
  end.

(** [isinstance(payload, int)] *)
Definition as_int (payload : json) : option Z :=
  match payload with
  | JInt z => if is_machine_int z then Some z else None
  | JBool b => Some (Z.b2z b)
  | _ => None
  end.

(** What a clause must contain, as the messages of the compiler word it. *)
Inductive Expected := Text | AnInteger | Numeric | TwoNumbers | ADict.

(** What compiling a search raises: a [ServerError], by the message it is
    raised with, or one of the exceptions of Python itself. *)
Inductive ServerError :=
| DataNotDict (got : string)
| UnrecognizedClause (name : string)
| BadContents (clause_name : string) (e : Expected) (got : string)
| NotJSON
| UnhandledQueryType (query_type : string)
| AttributeError (attr_name : string)
| OverflowError
| ValueError.

Inductive Result (A : Type) :=
| Ok (a : A)
| Raise (e : ServerError).
Arguments Ok {A} a.
Arguments Raise {A} e.

Definition bind {A B} (r : Result A) (k : A -> Result B) : Result B :=
  match r with
  | Ok a => k a
  | Raise e => Raise e
  end.

#[global] Instance Result_bind : MBind Result := fun A B k r => bind r k.

Definition is_ok {A} (r : Result A) : bool :=
  match r with Ok _ => true | Raise _ => false end.

(** ** The rows searched *)

Record Observation := {
  obsid : Z;
  start_time_jd : Q;
  stop_time_jd : Q;
  start_lst_hr : Q;
  session_id : Z;
  duration : Q
}.

Record File := {
  name : string;
  type : string;
  source : string;
  size : Z;
  file_obsid : Z;
  create_time : Q
}.

Record FileInstance := { instance_name : string }.

Record FileEvent := { event_name : string; event_type_of : string }.

Inductive Cls := ObservationCls | FileCls.

(** The columns of the two tables. *)
Inductive Column :=
| Observation_obsid | Observation_start_time_jd | Observation_stop_time_jd
| Observation_start_lst_hr | Observation_session_id | Observation_duration
| File_name | File_type | File_source | File_size | File_obsid
| File_create_time.

(** What an attribute getter returns: a column, which has the comparison
    operators of SQL, or the aliased sub-query of the two counting getters
    ([... .as_scalar().alias(name)]), a FROM clause that has none of them. *)
Inductive Attribute :=
| column (c : Column)
| aliased_subquery (alias_name : string).

(** [getattr(cls, attr_name)]; [None] where it raises. *)
Definition getattr (cls : Cls) (attr_name : string) : option Column :=
  match cls with
  | ObservationCls =>
      if String.eqb attr_name "obsid" then Some Observation_obsid
      else if String.eqb attr_name "start_time_jd" then Some Observation_start_time_jd
      else if String.eqb attr_name "stop_time_jd" then Some Observation_stop_time_jd
      else if String.eqb attr_name "start_lst_hr" then Some Observation_start_lst_hr
      else if String.eqb attr_name "session_id" then Some Observation_session_id
      else if String.eqb attr_name "duration" then Some Observation_duration
      else None
  | FileCls =>
      if String.eqb attr_name "name" then Some File_name
      else if String.eqb attr_name "type" then Some File_type
      else if String.eqb attr_name "source" then Some File_source
      else if String.eqb attr_name "size" then Some File_size
      else if String.eqb attr_name "obsid" then Some File_obsid
      else if String.eqb attr_name "create_time" then Some File_create_time
      else None
  end.

(** ** The SQL expressions the compiler builds *)

Inductive Comparison := IsEq | IsNe | IsGt | IsLt | IsGe | IsLe.

Inductive Bound := BText (s : string) | BNumber (x : Number).

Inductive Expr :=
| and_ (l : list Expr)
| or_ (l : list Expr)
| not_ (e : Expr)
| literal (b : bool)
| compare (c : Column) (op : Comparison) (v : Bound)
| like (c : Column) (pattern : string)
| obsid_in (e : Expr)
| name_in_events (etype : string).

(** The tables a query is run against. *)
Record Tables := {
  all_observations : list Observation;
  all_files : list File;
  all_instances : list FileInstance;
  all_events : list FileEvent
}.

(** ** Running an expression on a row (what [Query.filter] selects) *)

Definition Qltb (x y : Q) : bool :=
  match Qcompare x y with Lt => true | _ => false end.

(** A column value against a bound.  Against an infinity the order is the
    obvious one; against a NaN every comparison but [!=] is taken to fail, as
    in IEEE 754. *)
Definition num_compare (op : Comparison) (x : Q) (bound : Number) : bool :=
  match bound with
  | finite y =>
      match op with
      | IsEq => Qeq_bool x y
      | IsNe => negb (Qeq_bool x y)
      | IsGt => Qltb y x
      | IsLt => Qltb x y
      | IsGe => Qle_bool y x
      | IsLe => Qle_bool x y
      end
  | infinity negative =>
      match op with
      | IsEq => false
      | IsNe => true
      | IsGt | IsGe => negative
      | IsLt | IsLe => negb negative
      end
  | nan =>
      match op with
      | IsNe => true
      | _ => false
      end
  end.

Definition text_compare (op : Comparison) (x y : string) : bool :=
  match op with
  | IsEq => String.eqb x y
  | IsNe => negb (String.eqb x y)
  | IsGt => String.ltb y x
  | IsLt => String.ltb x y
  | IsGe => String.leb y x
  | IsLe => String.leb x y
  end.

(** SQL [LIKE]: [%] stands for any run of characters, [_] for any one. *)
Fixpoint like_match (pattern : list ascii) (s : list ascii) {struct pattern} : bool :=
  match pattern with
  | [] => match s with [] => true | _ => false end
  | p :: pattern' =>
      if Ascii.eqb p "%"%char then
        (fix skip (s : list ascii) : bool :=
           like_match pattern' s ||
           match s with [] => false | _ :: s' => skip s' end) s
      else
        match s with
        | [] => false
        | c :: s' =>
            (Ascii.eqb p "_"%char || Ascii.eqb p c) && like_match pattern' s'
        end
  end.

Definition sql_like (s pattern : string) : bool :=
  like_match (list_ascii_of_string pattern) (list_ascii_of_string s).

(** The value of a column on a row. *)
Definition text_of_file (c : Column) (f : File) : option string :=
  match c with
  | File_name => Some (name f)
  | File_type => Some (type f)
  | File_source => Some (source f)
  | _ => None
  end.

Definition number_of_file (t : Tables) (c : Column) (f : File) : option Q :=
  match c with
  | File_size => Some (inject_Z (size f))
  | File_obsid => Some (inject_Z (file_obsid f))
  | File_create_time => Some (create_time f)
  | _ => None
  end.

Definition number_of_observation (t : Tables) (c : Column) (o : Observation) : option Q :=
  match c with
  | Observation_obsid => Some (inject_Z (obsid o))
  | Observation_start_time_jd => Some (start_time_jd o)
  | Observation_stop_time_jd => Some (stop_time_jd o)
  | Observation_start_lst_hr => Some (start_lst_hr o)
  | Observation_session_id => Some (inject_Z (session_id o))
  | Observation_duration => Some (duration o)
  | _ => None
  end.

Definition compare_with (text : option string) (number : option Q)
    (op : Comparison) (v : Bound) : bool :=
  match v, text, number with
  | BText s, Some x, _ => text_compare op x s
  | BNumber q, _, Some x => num_compare op x q
  | _, _, _ => false
  end.

(** An expression over the observation table. *)
Fixpoint holds_for_observation (t : Tables) (e : Expr) (o : Observation) : bool :=
  match e with
  | and_ l => forallb (fun e' => holds_for_observation t e' o) l
  | or_ l => existsb (fun e' => holds_for_observation t e' o) l
  | not_ e' => negb (holds_for_observation t e' o)
  | literal b => b
  | compare c op v => compare_with None (number_of_observation t c o) op v
  | like c pattern => false
  | obsid_in _ => false
  | name_in_events _ => false
  end.

(** An expression over the file table. *)
Fixpoint holds_for_file (t : Tables) (e : Expr) (f : File) : bool :=
  match e with
  | and_ l => forallb (fun e' => holds_for_file t e' f) l
  | or_ l => existsb (fun e' => holds_for_file t e' f) l
  | not_ e' => negb (holds_for_file t e' f)
  | literal b => b
  | compare c op v => compare_with (text_of_file c f) (number_of_file t c f) op v
  | like c pattern =>
      match text_of_file c f with
      | Some x => sql_like x pattern
      | None => false
      end
  | obsid_in e' =>
      existsb (fun o => holds_for_observation t e' o && Z.eqb (obsid o) (file_obsid f))
              (all_observations t)
  | name_in_events etype =>
      existsb (fun ev => String.eqb (event_name ev) (name f)
                         && String.eqb (event_type_of ev) etype)
              (all_events t)
  end.

(** ** The search compiler *)

Inductive AttributeType := string_attr | int_attr | float_attr.

(** An attribute getter: [partial(getattr, cls, attr_name)], or one of the
    two counting sub-queries. *)
Inductive Getter :=
| partial_getattr (cls : Cls) (attr_name : string)
| _obs_get_num_files
| _file_get_num_instances.

Definition call_getter (g : Getter) : Result Attribute :=
  match g with
  | partial_getattr cls attr_name =>
      match getattr cls attr_name with
      | Some c => Ok (column c)
      | None => Raise (AttributeError attr_name)
      end
  | _obs_get_num_files => Ok (aliased_subquery "num_files")
  | _file_get_num_instances => Ok (aliased_subquery "num_instances")
  end.

(** Python 2's comparison of an object that defines none with a number:
    [==] is identity, so False, and [!=] True; in an ordering the number is
    the smaller one. *)
Definition default_comparison (op : Comparison) : bool :=
  match op with
  | IsEq => false
  | IsNe => true
  | IsGt | IsGe => true
  | IsLt | IsLe => false
  end.

(** [value op payload]: the SQL comparison when [value] is a column, and a
    plain [bool] when it is the aliased sub-query. *)
Definition compare_to (value : Attribute) (op : Comparison) (v : Bound) : Expr :=
  match value with
  | column c => compare c op v
  | aliased_subquery _ => literal (default_comparison op)
  end.

(** [value.like(payload)]; the aliased sub-query has no such attribute. *)
Definition like_of (value : Attribute) (pattern : string) : Result Expr :=
  match value with
  | column c => Ok (like c pattern)
  | aliased_subquery _ => Raise (AttributeError "like")
  end.

(** The entries of [self.clauses]: the methods of [GenericSearchCompiler],
    the typed ones already applied to their getter ([partial]), and the
    bound methods a subclass adds. *)
Inductive Impl :=
| DoAnd | DoOr | DoNoneOf | DoAlwaysTrue | DoAlwaysFalse
| DoStrMatches (attr_getter : Getter)
| DoStrIsExactly (attr_getter : Getter)
| DoStrIsNot (attr_getter : Getter)
| DoIntIsExactly (attr_getter : Getter)
| DoIntIsNot (attr_getter : Getter)
| DoNumGreaterThan (attr_getter : Getter)
| DoNumLessThan (attr_getter : Getter)
| DoNumInRange (attr_getter : Getter)
| DoNumNotInRange (attr_getter : Getter)
| BoundMethod (f : string -> json -> Result Expr).

(** [GenericSearchCompiler.__init__] *)
Definition generic_clauses : gmap string Impl :=
  <["always-false" := DoAlwaysFalse]>
  (<["always-true" := DoAlwaysTrue]>
  (<["none-of" := DoNoneOf]>
  (<["or" := DoOr]>
  (<["and" := DoAnd]> ∅)))).

(** [attr_name.replace('_', '-')] *)
Fixpoint replace_underscores (s : string) : string :=
  match s with
  | EmptyString => EmptyString
  | String c rest =>
      String (if Ascii.eqb c "_"%char then "-"%char else c) (replace_underscores rest)
  end.

(** [if attr_getter is None: attr_getter = partial(getattr, cls, attr_name)] *)
Definition getter_of (cls : Cls) (attr_name : string) (attr_getter : option Getter)
  : Getter :=
  match attr_getter with
  | None => partial_getattr cls attr_name
  | Some g => g
  end.

Definition add_attribute (cls : Cls) (info : string * AttributeType * option Getter)
    (clauses : gmap string Impl) : gmap string Impl :=
  let '(attr_name, attr_type, attr_getter) := info in
  let clause_name := replace_underscores attr_name in
  let attr_getter := getter_of cls attr_name attr_getter in
  match attr_type with
  | string_attr =>
      <[clause_name ++ "-matches" := DoStrMatches attr_getter]>
      (<[clause_name ++ "-is-not" := DoStrIsNot attr_getter]>
      (<[clause_name ++ "-is-exactly" := DoStrIsExactly attr_getter]> clauses))
  | int_attr =>
      <[clause_name ++ "-not-in-range" := DoNumNotInRange attr_getter]>
      (<[clause_name ++ "-in-range" := DoNumInRange attr_getter]>
      (<[clause_name ++ "-less-than" := DoNumLessThan attr_getter]>
      (<[clause_name ++ "-greater-than" := DoNumGreaterThan attr_getter]>
      (<[clause_name ++ "-is-not" := DoIntIsNot attr_getter]>
      (<[clause_name ++ "-is-exactly" := DoIntIsExactly attr_getter]> clauses)))))
  | float_attr =>
      <[clause_name ++ "-not-in-range" := DoNumNotInRange attr_getter]>
      (<[clause_name ++ "-in-range" := DoNumInRange attr_getter]>
      (<[clause_name ++ "-less-than" := DoNumLessThan attr_getter]>
      (<[clause_name ++ "-greater-than" := DoNumGreaterThan attr_getter]> clauses)))
  end.

(** [GenericSearchCompiler._add_attributes] *)
Definition _add_attributes (cls : Cls)
    (attr_info : list (string * AttributeType * option Getter))
    (clauses : gmap string Impl) : gmap string Impl :=
  foldl (fun acc info => add_attribute cls info acc) clauses attr_info.

(** Python's [v1 > v2] on numbers: false whenever one of them is a NaN. *)
Definition number_gt (v1 v2 : Number) : bool :=
  match v1, v2 with
  | nan, _ | _, nan => false
  | finite x, finite y => Qltb y x
  | finite _, infinity negative => negative
  | infinity negative, finite _ => negb negative
  | infinity negative1, infinity negative2 => negb negative1 && negative2
  end.

(** [if v1 > v2: v1, v2 = v2, v1] *)
Definition ordered (v1 v2 : Number) : Number * Number :=
  if number_gt v1 v2 then (v2, v1) else (v1, v2).

(** The two-number payload of the range clauses after that swap. *)
Definition ordered_pair (payload : json) : option (Number * Number) :=
  match payload with
  | JList [p1; p2] =>
      match as_number p1, as_number p2 with
      | Some v1, Some v2 => Some (ordered v1 v2)
      | _, _ => None
      end
  | _ => None
  end.

(** The [_do_*] methods.  [contents] raises the [ServerError] of a clause
    whose payload is not of the class it wants. *)
Definition contents (clause_name : string) (e : Expected) (payload : json) : Result Expr :=
  Raise (BadContents clause_name e (class_name payload)).

Definition _do_str_matches (attr_getter : Getter) (clause_name : string) (payload : json)
  : Result Expr :=
  match payload with
  | JUnicode s => value ← call_getter attr_getter; like_of value s
  | _ => contents clause_name Text payload
  end.

Definition _do_str_is_exactly (attr_getter : Getter) (clause_name : string) (payload : json)
  : Result Expr :=
  match payload with
  | JUnicode s => value ← call_getter attr_getter; Ok (compare_to value IsEq (BText s))
  | _ => contents clause_name Text payload
  end.

Definition _do_str_is_not (attr_getter : Getter) (clause_name : string) (payload : json)
  : Result Expr :=
  match payload with
  | JUnicode s => value ← call_getter attr_getter; Ok (compare_to value IsNe (BText s))
  | _ => contents clause_name Text payload
  end.

Definition _do_int_is_exactly (attr_getter : Getter) (clause_name : string) (payload : json)
  : Result Expr :=
  match as_int payload with
  | Some z =>
      value ← call_getter attr_getter; Ok (compare_to value IsEq (BNumber (inject_Z z)))
  | None => contents clause_name AnInteger payload
  end.

Definition _do_int_is_not (attr_getter : Getter) (clause_name : string) (payload : json)
  : Result Expr :=
  match as_int payload with
  | Some z =>
      value ← call_getter attr_getter; Ok (compare_to value IsNe (BNumber (inject_Z z)))
  | None => contents clause_name AnInteger payload
  end.

Definition _do_num_greater_than (attr_getter : Getter) (clause_name : string)
    (payload : json) : Result Expr :=
  match as_number payload with
  | Some q => value ← call_getter attr_getter; Ok (compare_to value IsGt (BNumber q))
  | None => contents clause_name Numeric payload
  end.

Definition _do_num_less_than (attr_getter : Getter) (clause_name : string)
    (payload : json) : Result Expr :=
  match as_number payload with
  | Some q => value ← call_getter attr_getter; Ok (compare_to value IsLt (BNumber q))
  | None => contents clause_name Numeric payload
  end.

Definition _do_num_in_range (attr_getter : Getter) (clause_name : string)
    (payload : json) : Result Expr :=
  match ordered_pair payload with
  | Some (v1, v2) =>
      value ← call_getter attr_getter;
      Ok (and_ [compare_to value IsGe (BNumber v1); compare_to value IsLe (BNumber v2)])
  | None => contents clause_name TwoNumbers payload
  end.

Definition _do_num_not_in_range (attr_getter : Getter) (clause_name : string)
    (payload : json) : Result Expr :=
  match ordered_pair payload with
  | Some (v1, v2) =>
      value ← call_getter attr_getter;
      Ok (or_ [compare_to value IsLt (BNumber v1); compare_to value IsGt (BNumber v2)])
  | None => contents clause_name TwoNumbers payload
  end.

(** [isinstance(payload, dict) and len(payload)] *)
Definition is_filled_dict (payload : json) : bool :=
  match payload with JDict (_ :: _) => true | _ => false end.

(** The three clauses over sub-clauses; [compiled] stands for the list the
    method builds by compiling each item of [payload.iteritems()]. *)
Definition _do_and (compiled : Result (list Expr)) (clause_name : string) (payload : json)
  : Result Expr :=
  if is_filled_dict payload then l ← compiled; Ok (and_ l)
  else contents clause_name ADict payload.

Definition _do_or (compiled : Result (list Expr)) (clause_name : string) (payload : json)
  : Result Expr :=
  if is_filled_dict payload then l ← compiled; Ok (or_ l)
  else contents clause_name ADict payload.

Definition _do_none_of (compiled : Result (list Expr)) (clause_name : string)
    (payload : json) : Result Expr :=
  if is_filled_dict payload then l ← compiled; Ok (not_ (or_ l))
  else contents clause_name ADict payload.

Definition _do_always_true (clause_name : string) (payload : json) : Result Expr :=
  Ok (literal true).

Definition _do_always_false (clause_name : string) (payload : json) : Result Expr :=
  Ok (literal false).

(** [impl(name, payload)] *)
Definition call (impl : Impl) (compiled : Result (list Expr))
    (name : string) (payload : json) : Result Expr :=
  match impl with
  | DoAnd => _do_and compiled name payload
  | DoOr => _do_or compiled name payload
  | DoNoneOf => _do_none_of compiled name payload
  | DoAlwaysTrue => _do_always_true name payload
  | DoAlwaysFalse => _do_always_false name payload
  | DoStrMatches g => _do_str_matches g name payload
  | DoStrIsExactly g => _do_str_is_exactly g name payload
  | DoStrIsNot g => _do_str_is_not g name payload
  | DoIntIsExactly g => _do_int_is_exactly g name payload
  | DoIntIsNot g => _do_int_is_not g name payload
  | DoNumGreaterThan g => _do_num_greater_than g name payload
  | DoNumLessThan g => _do_num_less_than g name payload
  | DoNumInRange g => _do_num_in_range g name payload
  | DoNumNotInRange g => _do_num_not_in_range g name payload
  | BoundMethod f => f name payload
  end.

Section Compile.
Variable clauses : gmap string Impl.

(** [GenericSearchCompiler._compile_clause] *)
Fixpoint _compile_clause (name : string) (payload : json) {struct payload} : Result Expr :=
  let compiled : Result (list Expr) :=
    match payload with
    | JDict items =>
        (fix each (items : list (string * json)) : Result (list Expr) :=
           match items with
           | [] => Ok []
           | (n, p) :: rest =>
               e ← _compile_clause n p; es ← each rest; Ok (e :: es)
           end) items
    | _ => Ok []
    end in
  match clauses !! name with
  | None => Raise (UnrecognizedClause name)
  | Some impl => call impl compiled name payload
  end.

(** The sub-clauses of a [dict], compiled in the order of its items. *)
Fixpoint compile_items (items : list (string * json)) : Result (list Expr) :=
  match items with
  | [] => Ok []
  | (n, p) :: rest =>
      e ← _compile_clause n p; es ← compile_items rest; Ok (e :: es)
  end.

(** [GenericSearchCompiler.compile] *)
Definition compile (search : json) : Result Expr :=
  match search with
  | JDict _ => _compile_clause "and" search
  | _ => Raise (DataNotDict (class_name search))
  end.

End Compile.

Definition simple_obs_attrs : list (string * AttributeType * option Getter) :=
  [ ("obsid", int_attr, None);
    ("start_time_jd", float_attr, None);
    ("stop_time_jd", float_attr, None);
    ("start_lst_hr", float_attr, None);
    ("session_id", int_attr, None);
    ("duration", float_attr, None);
    ("num_files", int_attr, Some _obs_get_num_files) ].

(** [ObservationSearchCompiler.__init__] *)
Definition ObservationSearchCompiler : gmap string Impl :=
  _add_attributes ObservationCls simple_obs_attrs generic_clauses.

Definition the_obs_search_compiler : gmap string Impl := ObservationSearchCompiler.

Definition simple_file_attrs : list (string * AttributeType * option Getter) :=
  [ ("name", string_attr, None);
    ("type", string_attr, None);
    ("source", string_attr, None);
    ("size", int_attr, None);
    ("obsid", int_attr, None);
    ("num-instances", int_attr, Some _file_get_num_instances) ].

(** Times are seconds from the epoch of [time.time()].  [datetime] reaches
    from 0001-01-01 00:00:00 to 9999-12-31 23:59:59.999999, and a
    [timedelta] holds at most 999999999 days either way. *)
Definition datetime_min : Q := -62135596800.
Definition datetime_max : Q := 253402300799999999 # 1000000.
Definition max_delta_days : Z := 999999999.
Definition microseconds_per_day : Z := 86400000000.

(** To the nearest integer, halves away from zero (Python 2's
    [round_to_long]). *)
Definition round_half_away (x : Q) : Z :=
  if Qle_bool 0 x then Qfloor (x + (1 # 2)) else Qceiling (x - (1 # 2)).

(** [timedelta(days=payload)], in seconds: the payload is turned into a whole
    number of microseconds; a NaN raises [ValueError], an infinity or more
    days than a [timedelta] holds [OverflowError]. *)
Definition timedelta_days (payload : Number) : Result Q :=
  match payload with
  | nan => Raise ValueError
  | infinity _ => Raise OverflowError
  | finite days =>
      let microseconds := round_half_away (days * inject_Z microseconds_per_day) in
      let whole_days := (microseconds / microseconds_per_day)%Z in
      if ((- max_delta_days <=? whole_days) && (whole_days <=? max_delta_days))%Z
      then Ok (microseconds # 1000000)
      else Raise OverflowError
  end.

(** [utcnow - delta], which raises [OverflowError] outside the range of
    [datetime]. *)
Definition datetime_sub (utcnow delta : Q) : Result Q :=
  let t := (utcnow - delta)%Q in
  if Qle_bool datetime_min t && Qle_bool t datetime_max then Ok t
  else Raise OverflowError.

(** The methods [FileSearchCompiler] adds.  [utcnow] is what
    [datetime.datetime.utcnow()] reads when the clause is compiled. *)
Definition _do_not_older_than (utcnow : Q) (clause_name : string) (payload : json)
  : Result Expr :=
  match as_number payload with
  | Some days =>
      delta ← timedelta_days days;
      cutoff ← datetime_sub utcnow delta;
      Ok (compare File_create_time IsGt (BNumber (finite cutoff)))
  | None => Raise (BadContents clause_name Numeric (class_name payload))
  end.

Definition _do_not_newer_than (utcnow : Q) (clause_name : string) (payload : json)
  : Result Expr :=
  match as_number payload with
  | Some days =>
      delta ← timedelta_days days;
      cutoff ← datetime_sub utcnow delta;
      Ok (compare File_create_time IsLt (BNumber (finite cutoff)))
  | None => Raise (BadContents clause_name Numeric (class_name payload))
  end.

Definition _do_obs_matches (clause_name : string) (payload : json) : Result Expr :=
  matched_obsids ← compile the_obs_search_compiler payload;
  Ok (obsid_in matched_obsids).

Definition _do_obs_sub_query (clause_name : string) (payload : json) : Result Expr :=
  matched_obsids ← _compile_clause the_obs_search_compiler clause_name payload;
  Ok (obsid_in matched_obsids).

(** [self.clauses[new] = self.clauses[old]] *)
Definition alias (new old : string) (clauses : gmap string Impl) : gmap string Impl :=
  match clauses !! old with
  | Some impl => <[new := impl]> clauses
  | None => clauses
  end.

Definition proxied_prefixes : list string :=
  ["start-time-jd"; "stop-time-jd"; "start-lst-hr"; "session-id"].

(** The clause names of the observation compiler that start with [pfx]. *)
Definition names_starting_with (pfx : string) (clauses : gmap string Impl) : list string :=
  List.filter (String.prefix pfx) (map fst (map_to_list clauses)).

(** [FileSearchCompiler.__init__] *)
Definition FileSearchCompiler (utcnow : Q) : gmap string Impl :=
  let clauses := _add_attributes FileCls simple_file_attrs generic_clauses in
  let clauses := <["obs-matches" := BoundMethod _do_obs_matches]> clauses in
  let clauses := alias "name-like" "name-matches" clauses in
  let clauses := alias "source-is" "source-is-exactly" clauses in
  let clauses :=
    foldl (fun acc pfx =>
             foldl (fun acc cname => <[cname := BoundMethod _do_obs_sub_query]> acc)
                   acc (names_starting_with pfx the_obs_search_compiler))
          clauses proxied_prefixes in
  let clauses := <["not-older-than" := BoundMethod (_do_not_older_than utcnow)]> clauses in
  <["not-newer-than" := BoundMethod (_do_not_newer_than utcnow)]> clauses.

Definition the_file_search_compiler := FileSearchCompiler.

(** A query: the table it reads and the criteria of its [filter] calls. *)
Inductive QueryKind := FileQuery | FileNameQuery | ObservationQuery.

Record Query := { kind : QueryKind; criteria : list Expr }.

Definition filter_by (e : Expr) (q : Query) : Query :=
  {| kind := kind q; criteria := criteria q ++ [e] |}.

Definition selects_file (t : Tables) (q : Query) (f : File) : bool :=
  forallb (fun e => holds_for_file t e f) (criteria q).

Definition selects_observation (t : Tables) (q : Query) (o : Observation) : bool :=
  forallb (fun e => holds_for_observation t e o) (criteria q).

(** Iterating a query on the file table. *)
Definition query_files (t : Tables) (q : Query) : list File :=
  List.filter (selects_file t q) (all_files t).

Section Server.

(** [json.loads] on the text of a search once its [#] comments are cut
    ([filter_comments]); [None] where it raises. *)
Variable loads : string -> option json.

(** [compile_search] *)
Definition compile_search (utcnow : Q) (search_string : string) (query_type : string)
  : Result Query :=
  match loads search_string with
  | None => Raise NotJSON
  | Some search =>
      if String.eqb query_type "files" then
        e ← compile (the_file_search_compiler utcnow) search;
        Ok {| kind := FileQuery; criteria := [e] |}
      else if String.eqb query_type "names" then
        e ← compile (the_file_search_compiler utcnow) search;
        Ok {| kind := FileNameQuery; criteria := [e] |}
      else if String.eqb query_type "obs" then
        e ← compile the_obs_search_compiler search;
        Ok {| kind := ObservationQuery; criteria := [e] |}
      else Raise (UnhandledQueryType query_type)
  end.

(** ** Standing orders *)

Record StandingOrder := {
  order_name : string;
  search : string;
  conn_name : string
}.

(** The entries of [the_task_manager.tasks]; only an [UploaderTask] is
    looked into. *)
Inductive BackgroundTask :=
| UploaderTask (store_path : string) (standing_order_name : option string)
               (exception : option string)
| OtherTask.

Inductive LogLine :=
| EvaluatingStandingOrder (oname : string)
| GotAHit (fname : string)
| NoInstancesAvailable (oname fname conn : string)
| NotCheckingDisabled
| NotCheckingNighttime (hour : Z)
| UnrecognizedMode (mode : json)
| RunningSearches
| TimeoutInvoked
| ReschedulingTimeout
| CalledQueueLaunchCopy
| TimeoutActuallyScheduled
| QueueingCheck.

(** What the server holds besides the manager: the database, the task
    list, the timers pending on the IO loop and the log. *)
Record Librarian := {
  tables : Tables;
  standing_orders : list StandingOrder;
  tasks : list BackgroundTask;
  call_later : list Q;
  log : list LogLine
}.

Definition emit (l : LogLine) (w : Librarian) : Librarian :=
  {| tables := tables w; standing_orders := standing_orders w; tasks := tasks w;
     call_later := call_later w; log := log w ++ [l] |}.

Definition schedule (delay : Q) (w : Librarian) : Librarian :=
  {| tables := tables w; standing_orders := standing_orders w; tasks := tasks w;
     call_later := call_later w ++ [delay]; log := log w |}.

Definition set_standing_orders (l : list StandingOrder) (w : Librarian) : Librarian :=
  {| tables := tables w; standing_orders := l; tasks := tasks w;
     call_later := call_later w; log := log w |}.

(** [launch_copy_by_file_name(file_name, conn_name, standing_order_name=...,
    no_instance='return')] of the store module, which is not part of the
    sources: it answers true when no instance of the file is available. *)
Variable launch_copy_by_file_name :
  string -> string -> string -> Librarian -> bool * Librarian.

(** [app.config] *)
Variable app_config : gmap string json.

(** [time.localtime(now).tm_hour] *)
Variable tm_hour : Q -> Z.

(** [StandingOrder._validate] *)
Definition _validate (utcnow : Q) (self : StandingOrder) : Result unit :=
  _ ← compile_search utcnow (search self) "files"; Ok tt.

(** [StandingOrder.__init__] *)
Definition new_StandingOrder (utcnow : Q) (name search conn_name : string)
  : Result StandingOrder :=
  let self := {| order_name := name; search := search; conn_name := conn_name |} in
  _ ← _validate utcnow self; Ok self.

(** [StandingOrder.event_type] *)
Definition event_type (self : StandingOrder) : string :=
  "standing_order_succeeded:" ++ order_name self.

(** [os.path.basename]: what follows the last slash. *)
Fixpoint basename_from (rest : string) (tail : string) : string :=
  match rest with
  | EmptyString => tail
  | String c rest' =>
      if Ascii.eqb c "/"%char then basename_from rest' rest'
      else basename_from rest' tail
  end.

Definition basename (p : string) : string := basename_from p p.

(** The set [already_launched] of [get_files_to_copy]. *)
Definition launched_by (self : StandingOrder) (t : BackgroundTask) : option string :=
  match t with
  | UploaderTask store_path standing_order_name exception =>
      if bool_decide (Some (order_name self) = standing_order_name)
         && bool_decide (exception = None)
      then Some (basename store_path)
      else None
  | OtherTask => None
  end.

Definition already_launched (self : StandingOrder) (tasks : list BackgroundTask)
  : gset string :=
  list_to_set (omap (launched_by self) tasks).

(** [StandingOrder.get_files_to_copy]: the files the generator yields, in
    the order of the query. *)
Definition get_files_to_copy (utcnow : Q) (self : StandingOrder) (w : Librarian)
  : Result (list File) :=
  query ← compile_search utcnow (search self) "files";
  let already_done := name_in_events (event_type self) in
  let query := filter_by (not_ already_done) query in
  let launched := already_launched self (tasks w) in
  Ok (List.filter (fun file => bool_decide (name file ∉ launched))
                  (query_files (tables w) query)).

(** [StandingOrder.maybe_launch_copies] *)
Definition launch_one (self : StandingOrder) (w : Librarian) (file : File) : Librarian :=
  let w := emit (GotAHit (name file)) w in
  let '(no_instance, w) :=
    launch_copy_by_file_name (name file) (conn_name self) (order_name self) w in
  if no_instance
  then emit (NoInstancesAvailable (order_name self) (name file) (conn_name self)) w
  else w.

Definition order_maybe_launch_copies (utcnow : Q) (self : StandingOrder) (w : Librarian)
  : Result unit * Librarian :=
  let w := emit (EvaluatingStandingOrder (order_name self)) w in
  match get_files_to_copy utcnow self w with
  | Raise e => (Raise e, w)
  | Ok files => (Ok tt, foldl (launch_one self) w files)
  end.

(** ** The standing order manager *)

Definition MIN_STANDING_ORDER_INTERVAL : Q := 1200.
Definition DEFAULT_STANDING_ORDER_DELAY : Q := 90.

Record StandingOrderManager := {
  last_check : Q;
  launch_queued : bool
}.

(** The class attributes [last_check = 0] and [launch_queued = False]. *)
Definition the_standing_order_manager : StandingOrderManager :=
  {| last_check := 0; launch_queued := false |}.

Definition is_text (s : string) (j : json) : bool :=
  match j with
  | JUnicode s' => String.eqb s' s
  | _ => false
  end.

(** [for storder in StandingOrder.query.all(): storder.maybe_launch_copies()] *)
Fixpoint evaluate_all (utcnow : Q) (storders : list StandingOrder) (w : Librarian)
  : Result unit * Librarian :=
  match storders with
  | [] => (Ok tt, w)
  | storder :: rest =>
      match order_maybe_launch_copies utcnow storder w with
      | (Raise e, w) => (Raise e, w)
      | (Ok _, w) => evaluate_all utcnow rest w
      end
  end.

(** [app.config.get('standing_order_mode', 'normal')] *)
Definition standing_order_mode : json :=
  default (JUnicode "normal") (app_config !! "standing_order_mode").

(** The tail of [maybe_launch_copies], from ['running searches'] on. *)
Definition run_searches (now : Q) (self : StandingOrderManager) (w : Librarian)
  : Result bool * StandingOrderManager * Librarian :=
  let w := emit RunningSearches w in
  let self := {| last_check := now; launch_queued := launch_queued self |} in
  match evaluate_all now (standing_orders w) w with
  | (Raise e, w) => (Raise e, self, w)
  | (Ok _, w) => (Ok true, self, w)
  end.

(** [StandingOrderManager.maybe_launch_copies]; [now] is what [time.time()]
    reads. *)
Definition maybe_launch_copies (now : Q) (self : StandingOrderManager) (w : Librarian)
  : Result bool * StandingOrderManager * Librarian :=
  if Qltb (now - last_check self) MIN_STANDING_ORDER_INTERVAL then
    (Ok false, self, w)
  else
    let mode := standing_order_mode in
    let hour := tm_hour now in
    if is_text "disabled" mode then
      (Ok true, self, emit NotCheckingDisabled w)
    else if is_text "nighttime" mode && (8 <=? hour)%Z && (hour <? 20)%Z then
      (Ok true, self, emit (NotCheckingNighttime hour) w)
    else
      let w :=
        if negb (is_text "nighttime" mode) && negb (is_text "normal" mode)
        then emit (UnrecognizedMode mode) w else w in
      run_searches now self w.

(** [StandingOrderManager.queue_launch_copy] *)
Definition queue_launch_copy (self : StandingOrderManager) (w : Librarian)
  : StandingOrderManager * Librarian :=
  let w := emit CalledQueueLaunchCopy w in
  if launch_queued self then (self, w)
  else
    let self := {| last_check := last_check self; launch_queued := true |} in
    let w := emit TimeoutActuallyScheduled w in
    (self, schedule DEFAULT_STANDING_ORDER_DELAY w).

(** [_launch_copy_timeout] *)
Definition _launch_copy_timeout (now : Q) (self : StandingOrderManager) (w : Librarian)
  : Result unit * StandingOrderManager * Librarian :=
  let w := emit TimeoutInvoked w in
  match maybe_launch_copies now self w with
  | (Raise e, self, w) => (Raise e, self, w)
  | (Ok true, self, w) =>
      (Ok tt, {| last_check := last_check self; launch_queued := false |}, w)
  | (Ok false, self, w) =>
      let w := emit ReschedulingTimeout w in
      (Ok tt, self, schedule DEFAULT_STANDING_ORDER_DELAY w)
  end.

(** [queue_standing_order_copies] *)
Definition queue_standing_order_copies (self : StandingOrderManager) (w : Librarian)
  : StandingOrderManager * Librarian :=
  queue_launch_copy self (emit QueueingCheck w).

(** ** The administrative operations on standing orders *)

(** What an operation catches with [except Exception as e]. *)
Inductive Caught :=
| EmptyOrderName
| Invalid (e : ServerError)
| IntegrityError.

Inductive Flash :=
| NoSuchStandingOrder (name : string)
| CannotCreate (name : string) (e : Caught)
| CannotUpdate (name : string) (e : Caught)
| Updated (new_name : string)
| Deleted (name : string).

(** The redirect an operation answers with, and what it flashed. *)
Record Response := { flashed : option Flash; location : string }.

(** The double quote and the line feed of [default_search]. *)
Definition dq : string := String (ascii_of_nat 34) EmptyString.
Definition lf : string := String (ascii_of_nat 10) EmptyString.

Definition default_search : string :=
  "{" ++ lf ++
  "  " ++ dq ++ "name-matches" ++ dq ++ ": "
       ++ dq ++ "any-file-named-like-%-this" ++ dq ++ "," ++ lf ++
  "  " ++ dq ++ "not-older-than" ++ dq ++ ": 14 # days" ++ lf ++
  "}".

(** [StandingOrder.query.filter(StandingOrder.name == name).first()], with
    the position of the row in its table. *)
Fixpoint first_order (name : string) (id : nat) (l : list StandingOrder)
  : option (nat * StandingOrder) :=
  match l with
  | [] => None
  | o :: rest =>
      if String.eqb (order_name o) name then Some (id, o)
      else first_order name (S id) rest
  end.

(** [name = NotNull(db.String(64), unique=True)]: a commit is refused when
    two rows would bear one name. *)
Definition unique_names (l : list StandingOrder) : bool :=
  bool_decide (NoDup (map order_name l)).

(** [db.session.commit()] of a session whose pending state of the
    [standing_order] table is [pending]. *)
Definition session_commit (pending : list StandingOrder) (w : Librarian)
  : option Librarian :=
  if unique_names pending then Some (set_standing_orders pending w) else None.

Definition standing_orders_url : string := "/standing-orders".

(** [create_standing_order] *)
Definition create_standing_order (utcnow : Q) (name : string)
    (m : StandingOrderManager) (w : Librarian)
  : Response * StandingOrderManager * Librarian :=
  let failed e :=
    ({| flashed := Some (CannotCreate name e); location := standing_orders_url |}, m, w) in
  if Nat.eqb (String.length name) 0 then failed EmptyOrderName
  else
    match new_StandingOrder utcnow name default_search "undefined-connection" with
    | Raise e => failed (Invalid e)
    | Ok storder =>
        match _validate utcnow storder with
        | Raise e => failed (Invalid e)
        | Ok _ =>
            match session_commit (standing_orders w ++ [storder]) w with
            | None => failed IntegrityError
            | Some w =>
                ({| flashed := None;
                    location := standing_orders_url ++ "/" ++ name |}, m, w)
            end
        end
    end.

(** [update_standing_order].  The attribute writes land on the object the
    session holds; the table changes at [db.session.commit()] only, and a
    session that did not commit is dropped with its request. *)
Definition update_standing_order (utcnow : Q) (name new_name new_conn new_search : string)
    (m : StandingOrderManager) (w : Librarian)
  : Response * StandingOrderManager * Librarian :=
  match first_order name 0%nat (standing_orders w) with
  | None =>
      ({| flashed := Some (NoSuchStandingOrder name);
          location := standing_orders_url |}, m, w)
  | Some (id, storder) =>
      let failed e :=
        ({| flashed := Some (CannotUpdate name e); location := standing_orders_url |}, m, w) in
      let storder :=
        {| order_name := new_name; search := search storder;
           conn_name := conn_name storder |} in
      let storder :=
        {| order_name := order_name storder; search := search storder;
           conn_name := new_conn |} in
      let storder :=
        {| order_name := order_name storder; search := new_search;
           conn_name := conn_name storder |} in
      match _validate utcnow storder with
      | Raise e => failed (Invalid e)
      | Ok _ =>
          match session_commit (<[id := storder]> (standing_orders w)) w with
          | None => failed IntegrityError
          | Some w =>
              let '(m, w) := queue_standing_order_copies m w in
              ({| flashed := Some (Updated new_name);
                  location := standing_orders_url |}, m, w)
          end
      end
  end.

(** [delete_standing_order] *)
Definition delete_standing_order (name : string)
    (m : StandingOrderManager) (w : Librarian)
  : Response * StandingOrderManager * Librarian :=
  match first_order name 0%nat (standing_orders w) with
  | None =>
      ({| flashed := Some (NoSuchStandingOrder name);
          location := standing_orders_url |}, m, w)
  | Some (id, _) =>
      ({| flashed := Some (Deleted name); location := standing_orders_url |},
       m, set_standing_orders (delete id (standing_orders w)) w)
  end.

End Server.

(** ** The vocabulary of the properties *)


(** The searchable kinds, side by side. *)
Definition attrs_of (cls : Cls) : list (string * AttributeType * option Getter) :=
  match cls with
  | ObservationCls => simple_obs_attrs
  | FileCls => simple_file_attrs
  end.

Definition compiler_of (utcnow : Q) (cls : Cls) : gmap string Impl :=
  match cls with
  | ObservationCls => the_obs_search_compiler
  | FileCls => the_file_search_compiler utcnow
  end.

Definition Row (cls : Cls) : Type :=
  match cls with
  | ObservationCls => Observation
  | FileCls => File
  end.

Definition holds_for (cls : Cls) (t : Tables) (e : Expr) : Row cls -> bool :=
  match cls with
  | ObservationCls => holds_for_observation t e
  | FileCls => holds_for_file t e
  end.

Definition number_of (cls : Cls) (t : Tables) (c : Column) : Row cls -> option Q :=
  match cls with
  | ObservationCls => number_of_observation t c
  | FileCls => number_of_file t c
  end.

Definition is_numeric (ty : AttributeType) : Prop := ty = int_attr \/ ty = float_attr.

(** File [f] bears an event of type [etype]. *)
Definition bears_event (t : Tables) (etype : string) (f : File) : Prop :=
  exists ev, ev ∈ all_events t /\ event_name ev = name f /\ event_type_of ev = etype.

(** An uploader task of the order [oname] that raised no exception keeps
    a copy of [f]: its path ends in the name of [f]. *)
Definition has_live_copy_task (tasks : list BackgroundTask) (oname : string) (f : File)
  : Prop :=
  exists store_path,
    UploaderTask store_path (Some oname) None ∈ tasks /\ basename store_path = name f.






(** The manager is told not to check: the mode is [disabled], or it is
    [nighttime] and the local hour is one of 8 to 19. *)
Definition checks_not_wanted (cfg : gmap string json) (tm_hour : Q -> Z) (now : Q) : Prop :=
  is_text "disabled" (standing_order_mode cfg) = true \/
  (is_text "nighttime" (standing_order_mode cfg) = true /\
   (8 <= tm_hour now < 20)%Z).

(** ** A concrete server, for evaluating the operations *)

Definition uv_search : string :=
  "{" ++ dq ++ "name-matches" ++ dq ++ ": " ++ dq ++ "%.uv" ++ dq ++ "}".

Definition broken_search : string := "{" ++ dq ++ "name-matches" ++ dq ++ ": 3}".

(** [json.loads] on the three search texts used below. *)
Definition sample_loads (text : string) : option json :=
  if String.eqb text default_search then
    Some (JDict [("name-matches", JUnicode "any-file-named-like-%-this");
                 ("not-older-than", JInt 14)])
  else if String.eqb text uv_search then
    Some (JDict [("name-matches", JUnicode "%.uv")])
  else if String.eqb text broken_search then
    Some (JDict [("name-matches", JInt 3)])
  else None.

(** A copy launcher that always finds an instance and files an uploader
    task for it. *)
Definition sample_launch (fname conn oname : string) (w : Librarian) : bool * Librarian :=
  (false,
   {| tables := tables w; standing_orders := standing_orders w;
      tasks := tasks w ++ [UploaderTask ("/data/" ++ fname) (Some oname) None];
      call_later := call_later w; log := log w |}).

Definition sample_file (n : string) : File :=
  {| name := n; type := "uv"; source := "correlator"; size := 10;
     file_obsid := 1; create_time := 0 |}.

Definition sample_order : StandingOrder :=
  {| order_name := "to-nrao"; search := uv_search; conn_name := "nrao" |}.

Definition sample_tables : Tables :=
  {| all_observations := [];
     all_files := [sample_file "a.uv"; sample_file "b.uv"; sample_file "c.uv";
                   sample_file "d.uv"; sample_file "a.txt"];
     all_instances := [];
     all_events :=
       [{| event_name := "b.uv"; event_type_of := "standing_order_succeeded:to-nrao" |}] |}.

Definition sample_librarian : Librarian :=
  {| tables := sample_tables;
     standing_orders := [sample_order];
     tasks := [UploaderTask "/data/c.uv" (Some "to-nrao") None;
               UploaderTask "/data/d.uv" (Some "to-nrao") (Some "scp failed")];
     call_later := [];
     log := [] |}.

Definition config_with_mode (mode : string) : gmap string json :=
  {[ "standing_order_mode" := JUnicode mode ]}.

(** A clock on which local time is UTC: the hour of the day. *)
Definition utc_hour (now : Q) : Z := (Qfloor now / 3600) mod 24.

(** ** The comments of a search text *)

Section Comments.

(** [search_string.splitlines()] *)
Variable splitlines : string -> list string.

(** [line.split('#', 1)[0]]: what stands before the first [#]. *)
Fixpoint before_hash (line : string) : string :=
  match line with
  | EmptyString => EmptyString
  | String c rest =>
      if Ascii.eqb c "#"%char then EmptyString else String c (before_hash rest)
  end.

(** The generator [filter_comments] of [compile_search]. *)
Definition filter_comments (search_string : string) : list string :=
  map before_hash (splitlines search_string).

(** [sep.join(lines)] *)
Fixpoint join (sep : string) (lines : list string) : string :=
  match lines with
  | [] => EmptyString
  | [line] => line
  | line :: rest => line ++ sep ++ join sep rest
  end.

(** ['\n'.join(filter_comments())], the text [json.loads] is given. *)
Definition without_comments (search_string : string) : string :=
  join lf (filter_comments search_string).

End Comments.

(** The characters of a text. *)
Definition has_hash (text : string) : Prop := "#"%char ∈ list_ascii_of_string text.

End Search.

(* ===================================================================== *)
(** * Properties of the clone orchestrator                                *)
(* ===================================================================== *)

Open Scope list_scope.

Module CloneFacts.
Import CreateClone.

Section Run.
Context {World TM : Type} `{Env : Environment World TM}.

Abbreviation St := (State World TM).

Lemma alter_last {A} (f : A -> A) (l : list A) (x : A) :
  alter f (length l) (l ++ [x]) = l ++ [f x].
Proof.
  replace (length l) with (length l + 0)%nat by lia.
  by rewrite alter_app_r.
Qed.

(** One more manager: use the induction hypothesis at the state the loop
    goes on from, with [t0] the transfer row as it then stands. *)
Ltac loop_step IH t0 :=
  match goal with
  | Ht : transfers (db ?st) = ?old ++ [_]
    |- context [transfer_loop _ _ _ _ _ ?s ?n ?st0] =>
      let t' := fresh "t'" in
      let evs := fresh "evs" in
      let H := fresh "H" in
      destruct (IH s n st0 old t0) as (t' & evs & H);
      [ simpl; rewrite ?Ht, ?alter_last; reflexivity
      | simpl in H; destruct H as (-> & -> & -> & [? ?] & ->);
        exists t'; eexists; simpl;
        repeat split; rewrite <- ?app_assoc; (reflexivity || assumption) ]
  end.

(** The manager loop only rewrites the transfer it was given and only
    appends to the trace. *)
Lemma transfer_loop_frame store_from i staged_path tms :
  forall success tm_name (st : St) old t,
    transfers (db st) = old ++ [t] ->
    exists t' evs,
      let st' := (transfer_loop store_from i staged_path (length old) tms
                                success tm_name st).2 in
      stores (db st') = stores (db st) /\
      instances (db st') = instances (db st) /\
      transfers (db st') = old ++ [t'] /\
      (source_instance_id t' = source_instance_id t /\
       destination_store_id t' = destination_store_id t) /\
      trace st' = trace st ++ evs.
Proof.
  induction tms as [|[n tm] rest IH]; intros success tm_name st old t Ht.
  - exists t, []. simpl. by rewrite app_nil_r.
  - simpl.
    destruct (transfer_out store_from (path i) staged_path tm (world st))
      as [[[|]|] w] eqn:Hout; simpl.
    + loop_step IH t.
    + loop_step IH (with_status FAILED t).
    + loop_step IH (with_status FAILED t).
Qed.

(** Every pass of the loop body is of one of the three kinds. *)
Lemma clone_instance_pass store_from store_to tms r c (st : St) :
  Pass store_to r c st
       (clone_instance store_from store_to tms r (c, st)).1
       (clone_instance store_from store_to tms r (c, st)).2.
Proof.
  destruct r as [instance_id instance]. unfold clone_instance.
  destruct (already_cloned store_to (file instance) (db st)) eqn:Hthere.
  { by apply Skipped. }
  cbn [add_transfer].
  match goal with
  | |- context [stage ?a ?b ?c ?w] => destruct (stage a b c w) as [[sn sp|] w1] eqn:Hstage
  end.
  2: { eapply Failed; simpl; rewrite ?alter_last, <- ?app_assoc; try reflexivity; done. }
  match goal with
  | |- context [transfer_loop ?a ?b ?c ?d ?e ?f ?g ?st0] =>
      destruct (transfer_loop_frame a b c e f g st0 (transfers (db st))
                  (new_transfer store_from store_to instance_id (now (world st))))
        as (t' & evs & Hloop); [ reflexivity |];
      destruct (transfer_loop a b c d e f g st0) as [[success tm_name] st2] eqn:Heq
  end.
  simpl in Hloop. destruct Hloop as (Hs & Hi & Ht & [Hsrc Hdst] & Htr).
  destruct success; cbn [negb].
  2: { eapply Failed; simpl; rewrite ?Hs, ?Hi, ?Ht, ?Htr, ?alter_last, <- ?app_assoc;
       try reflexivity; done. }
  match goal with
  | |- context [commit ?a ?b ?c ?w] => destruct (commit a b c w) as [[|] w3] eqn:Hcommit
  end.
  - eapply (Completed _ _ _ _ _ _ _ _ sp); simpl;
      rewrite ?Hs, ?Hi, ?Ht, ?Htr, ?alter_last, <- ?app_assoc; try reflexivity; try done.
    rewrite !elem_of_app, !elem_of_cons. tauto.
  - eapply Failed; simpl; rewrite ?Hs, ?Hi, ?Ht, ?Htr, ?alter_last, <- ?app_assoc;
      try reflexivity; done.
Qed.

Lemma already_cloned_more store_to f (d d' : Database TM) news :
  instances d' = instances d ++ news ->
  already_cloned store_to f d = true ->
  already_cloned store_to f d' = true.
Proof.
  unfold already_cloned. intros ->. rewrite existsb_app. intros ->. reflexivity.
Qed.

Lemma clone_recorded_more store_to done done' (st st' : St) t news evs :
  instances (db st') = instances (db st) ++ news ->
  trace st' = trace st ++ evs ->
  done ⊆ done' ->
  clone_recorded store_to done st t ->
  clone_recorded store_to done' st' t.
Proof.
  intros Hi Htr Hsub (i & d & n & sp & Hin & Hd & Hn & Hrest).
  exists i, d, n, sp. rewrite Hi, Htr.
  split; [by apply Hsub|]. split; [done|].
  split; [by apply lookup_app_l_Some|].
  destruct Hrest as (? & ? & ? & ? & ?). repeat split; try done.
  apply elem_of_app. by left.
Qed.

Lemma progress_start store_to (st : St) : Progress store_to st st [].
Proof.
  split; [done | exists [] | exists [] | exists []]; rewrite ?app_nil_r; auto.
Qed.

Lemma progress_pass store_to (st0 st1 st2 : St) done r c c' :
  Progress store_to st0 st1 done ->
  Pass store_to r c st1 c' st2 ->
  Progress store_to st0 st2 (done ++ [r]).
Proof.
  intros [Hs (news & Hi & Hnews) (newt & Ht & Hterm & Hrec & Hall) (evs & Htr)] HP.
  assert (Hsub : done ⊆ done ++ [r]) by (intros x Hx; apply elem_of_app; by left).
  destruct HP as [Hthere Hdb Htr' _
                 | t evs' Hthere Hs' Hi' Ht' Hst Htr' _
                 | t evs' sp ct Hthere Hs' Hi' Ht' Hst Hsrc Hto Hdst Htr' Hcommit _].
  - split.
    + by rewrite Hdb.
    + exists news. by rewrite Hdb.
    + exists newt. rewrite Hdb. repeat split; try done.
      * eapply Forall_impl; [exact Hrec|]. intros t Ht0 Hc.
        eapply (clone_recorded_more _ _ _ st1 st2 t []); eauto.
        by rewrite Hdb, app_nil_r.
      * intros Hc. apply Forall_app. split; [auto|].
        constructor; [exact Hthere | constructor].
    + exists (evs ++ [LogAlreadyExists]). by rewrite Htr', Htr, app_assoc.
  - split.
    + by rewrite Hs'.
    + exists news. by rewrite Hi'.
    + exists (newt ++ [t]). rewrite Ht', Ht, app_assoc. repeat split; try done.
      * apply Forall_app. split; [done|]. constructor; [by right | constructor].
      * apply Forall_app. split.
        -- eapply Forall_impl; [exact Hrec|]. intros t0 Ht0 Hc.
           eapply (clone_recorded_more _ _ _ st1 st2 t0 []); eauto.
           by rewrite Hi', app_nil_r.
        -- constructor; [|constructor]. rewrite Hst. discriminate.
      * intros Hc. apply Forall_app in Hc as [_ Hc].
        inversion Hc as [|? ? Hbad _]; subst. rewrite Hst in Hbad. discriminate.
    + exists (evs ++ evs'). by rewrite Htr', Htr, app_assoc.
  - split.
    + by rewrite Hs'.
    + eexists. rewrite Hi', Hi, <- app_assoc. split; [reflexivity|].
      apply Forall_app. split; [done|]. by repeat constructor.
    + exists (newt ++ [t]). rewrite Ht', Ht, app_assoc. repeat split; try done.
      * apply Forall_app. split; [done|]. constructor; [by left | constructor].
      * apply Forall_app. split.
        -- eapply Forall_impl; [exact Hrec|]. intros t0 Ht0 Hc.
           eapply (clone_recorded_more _ _ _ st1 st2 t0); eauto.
        -- constructor; [|constructor]. intros _.
           eexists r.2, _, _, sp. split.
           { rewrite Hsrc. apply elem_of_app. right. destruct r. by constructor. }
           split; [exact Hdst|]. split.
           { rewrite Hi'. apply list_lookup_middle. reflexivity. }
           simpl. repeat split; try done.
           rewrite Htr'. apply elem_of_app. by right.
      * intros Hc. apply Forall_app in Hc as [Hc _].
        apply Forall_app. split.
        -- eapply Forall_impl; [exact (Hall Hc)|]. intros r0 Hr0.
           eapply already_cloned_more; eauto.
        -- constructor; [|constructor].
           unfold already_cloned. rewrite Hi', existsb_app. apply orb_true_iff. right.
           simpl. unfold on_store. simpl.
           rewrite bool_decide_eq_true_2 by done. by rewrite String.eqb_refl.
    + exists (evs ++ evs'). by rewrite Htr', Htr, app_assoc.
Qed.

Lemma progress_loop store_from store_to tms selected c (st : St) :
  Progress store_to st (instances_loop store_from store_to tms selected c st).2 selected.
Proof.
  unfold instances_loop.
  induction selected as [|r done IH] using rev_ind; [apply progress_start|].
  rewrite foldl_app. simpl.
  destruct (foldl _ (c, st) done) as [c1 st1] eqn:Hfold. simpl in IH.
  eapply progress_pass; [exact IH|]. apply clone_instance_pass.
Qed.

Lemma elem_of_select_instances store_from start (d : Database TM) i x :
  (i, x) ∈ select_instances store_from start d <->
  instances d !! i = Some x /\ store x = store_from /\ start < created_time x.
Proof.
  unfold select_instances, rows. rewrite list_elem_of_filter, elem_of_lookup_imap.
  simpl. split.
  - intros [[? ?] (j & y & Heq & Hy)]. by simplify_eq.
  - intros (? & ? & ?). split; [done|]. by exists i, x.
Qed.

Lemma clone_instance_there store_from store_to tms r c (st : St) :
  already_cloned store_to (file r.2) (db st) = true ->
  clone_instance store_from store_to tms r (c, st)
  = (count_unnecessary c, emit LogAlreadyExists st).
Proof. destruct r as [i x]. simpl. intros H. unfold clone_instance. by rewrite H. Qed.

(** A pass over instances that are all on the destination store already
    only counts them. *)
Lemma instances_loop_all_there store_from store_to tms selected :
  forall c (st : St),
    Forall (fun r => already_cloned store_to (file r.2) (db st) = true) selected ->
    let res := instances_loop store_from store_to tms selected c st in
    successful_clones res.1 = successful_clones c /\
    unnecessary_clones res.1 = (unnecessary_clones c + length selected)%nat /\
    db res.2 = db st /\ world res.2 = world st /\
    trace res.2 = trace st ++ replicate (length selected) LogAlreadyExists.
Proof.
  unfold instances_loop.
  induction selected as [|[i x] rest IH]; intros c st Hall; cbn [foldl length].
  - simpl. rewrite app_nil_r. repeat split; lia.
  - inversion Hall as [|? ? Hx Hrest]; subst.
    rewrite clone_instance_there by exact Hx.
    specialize (IH (count_unnecessary c) (emit LogAlreadyExists st) Hrest).
    simpl in IH. destruct IH as (-> & -> & -> & -> & ->). simpl.
    repeat split; try lia. by rewrite <- app_assoc.
Qed.

Lemma on_call_run task (st : St) :
  RunOf task st (on_call task st).1 (on_call task st).2.
Proof.
  unfold on_call.
  destruct (get_store (clone_from task) (db st)) as [[store_from from_meta]|] eqn:Hfrom;
    [destruct (get_store (clone_to task) (db st)) as [[store_to to_meta]|] eqn:Hto |].
  - match goal with
    | |- context [instances_loop ?a ?b ?c ?d ?e ?f] =>
        pose proof (progress_loop a b c d e f) as HP;
        destruct (instances_loop a b c d e f) as [c1 st1] eqn:Hloop
    end.
    simpl. by eapply Ran.
  - simpl. apply Cancelled. by right.
  - simpl. apply Cancelled. by left.
Qed.

Lemma already_cloned_self store_to x (d : Database TM) :
  x ∈ instances d -> store x = store_to ->
  already_cloned store_to (file x) d = true.
Proof.
  intros Hin Hst. unfold already_cloned. apply existsb_exists.
  exists x. split; [by apply list_elem_of_In|].
  unfold on_store. rewrite bool_decide_eq_true_2 by done.
  by rewrite String.eqb_refl.
Qed.

End Run.

(** ** The manager loop on two managers *)

(** C1 (the code departs from the claim).  With two transfer managers
    [a] and [b] on the destination store that both report success, the run
    still attempts [b] after [a] has succeeded, and it is [b], the last
    manager of the iteration and not the first to succeed, that is recorded
    as [transfer_manager_name]. *)
Theorem last_manager_is_recorded :
  let st' := (on_call clone_A_to_B (start_state 100 [("a", ok); ("b", ok)])).2 in
  managers_attempted (trace st') = ["a"; "b"] /\
  transfer_manager_name <$> transfers (db st') !! 0%nat = Some (Some "b") /\
  status <$> transfers (db st') !! 0%nat = Some COMPLETED.
Proof. vm_compute. repeat split. Qed.

(** C2 (the code departs from the claim).  When manager [a] reports failure
    and manager [b] then reports success, the one CloneTransfer row of the
    instance is written FAILED, then STAGED, then COMPLETED: the FAILED
    status does not stay. *)
Theorem failed_transfer_is_completed :
  let st' := (on_call clone_A_to_B (start_state 100 [("a", ko); ("b", ok)])).2 in
  status_history 0 (trace st') = [PENDING; FAILED; STAGED; COMPLETED] /\
  length (transfers (db st')) = 1%nat /\
  status <$> transfers (db st') !! 0%nat = Some COMPLETED.
Proof. vm_compute. repeat split. Qed.

(** ** The status of the transfers at the end of a run *)

(** C3.  Every CloneTransfer row created during a run of [on_call] has
    status COMPLETED or FAILED in the state the run ends in, and a run that
    is not cancelled ends by emitting its summary line, after which nothing
    is written. *)
Theorem created_transfers_end_terminal
    {World TM : Type} `{Env : Environment World TM}
    (task : Task) (st : State World TM) (k : nat) (t : CloneTransfer) :
  created_since st (on_call task st).2 k t ->
  terminal (status t) /\
  ((on_call task st).1 = Returned ->
   exists evs s n u, trace (on_call task st).2 = trace st ++ evs ++ [LogSummary s n u]).
Proof.
  unfold created_since. pose proof (on_call_run task st) as HR.
  destruct (on_call task st) as [out st1]. simpl in *. intros [Hk Hlook].
  destruct HR as [name _ | store_from from_meta store_to to_meta selected c st' _ _ _ _ HP].
  - simpl in Hlook. apply lookup_lt_Some in Hlook. split; [lia | discriminate].
  - destruct HP as [_ _ (newt & Ht & Hterm & _) (evs & Htr)]. simpl in *. split.
    + rewrite Ht, lookup_app_r in Hlook by lia.
      eapply Forall_lookup_1 in Hterm; eauto.
    + intros _. exists evs. do 3 eexists. rewrite Htr, <- app_assoc. reflexivity.
Qed.

Lemma created_transfers_end_terminal_witness :
  let st := start_state 1 [("a", ok)] in
  let t := {| source_store_id := 0; destination_store_id := 1;
              source_instance_id := 0; destination_instance_id := None;
              transfer_manager_name := None; status := FAILED;
              start_time := 1000010; end_time := None |} in
  created_since st (on_call clone_A_to_B st).2 0 t /\ terminal (status t).
Proof.
  intros st t.
  assert (H : created_since st (on_call clone_A_to_B st).2 0 t).
  { split; [simpl; lia | reflexivity]. }
  split; [exact H | exact (proj1 (created_transfers_end_terminal clone_A_to_B st 0%nat t H))].
Defined.

(** ** Running the task twice *)

(** C4, as the claim states it, fails: when the first run could not stage
    the file, the second run finds no instance on the destination store,
    creates a second CloneTransfer row and counts nothing as unnecessary. *)
Lemma second_run_retries_a_failed_clone :
  let st1 := (on_call clone_A_to_B (start_state 1 [("a", ok)])).2 in
  let st2 := (on_call clone_A_to_B st1).2 in
  length (transfers (db st1)) = 1%nat /\
  length (transfers (db st2)) = 2%nat /\
  last (trace st2) = Some (LogSummary 0 1 0).
Proof. vm_compute. repeat split. Qed.

(** C4, amended.  When no transfer created by the first run ended FAILED
    (each is COMPLETED) and the clock did not go back, running the task
    again on the state the first run left creates no CloneTransfer row and
    no Instance: every instance the second run selects is skipped and
    counted as unnecessary, none as cloned. *)
Theorem second_run_creates_nothing
    {World TM : Type} `{Env : Environment World TM}
    (task : Task) (st : State World TM) (out1 : Outcome) (st1 : State World TM) :
  on_call task st = (out1, st1) ->
  (now (world st) <= now (world st1))%Z ->
  (forall k t, created_since st st1 k t -> status t = COMPLETED) ->
  db (on_call task st1).2 = db st1 /\
  ((on_call task st1).1 = Returned ->
   exists n,
     trace (on_call task st1).2
     = trace st1 ++ replicate n LogAlreadyExists ++ [LogSummary 0 n n]).
Proof.
  unfold created_since. intros H1 Hnow Hall.
  pose proof (on_call_run task st) as HR. rewrite H1 in HR. simpl in HR.
  destruct HR as [name Hnone
                 | store_from from_meta store_to to_meta selected c stl Hfrom Hto Hsel _ HP].
  { (* the first run was cancelled: so is the second *)
    unfold on_call, get_store in *. simpl.
    destruct Hnone as [-> | Hnone]; [split; [done | discriminate]|].
    destruct (first_store (clone_from task) 0 (stores (db st))) as [[? ?]|];
      rewrite ?Hnone; split; (done || discriminate). }
  simpl in Hnow, Hall.
  destruct HP as [Hs (news & Hi & Hnews) (newt & Ht & _ & _ & Hthere) _].
  (* every instance the first run selected is on the destination store *)
  assert (Hdone : Forall (fun t => status t = COMPLETED) newt).
  { apply Forall_lookup. intros j t Hj. apply (Hall (length (transfers (db st)) + j)%nat).
    split; [lia|]. rewrite Ht, lookup_app_r by lia.
    by replace (length (transfers (db st)) + j - length (transfers (db st)))%nat
      with j by lia. }
  specialize (Hthere Hdone).
  (* the second run resolves the same stores *)
  unfold on_call. unfold get_store in *. simpl. rewrite Hs, Hfrom, Hto.
  match goal with
  | |- context [instances_loop ?a ?b ?c ?d ?e ?f] =>
      pose proof (instances_loop_all_there a b c d e f) as HL;
      destruct (instances_loop a b c d e f) as [c2 st2]
  end.
  simpl in HL. destruct HL as (Hsucc & Hunn & Hdb & _ & Htr).
  { (* what it selects was selected before, or is itself a clone *)
    apply Forall_forall. intros [i x] Hin.
    apply elem_of_select_instances in Hin as (Hlook & Hstore & Hstart).
    simpl in *.
    rewrite Hi in Hlook. apply lookup_app_Some in Hlook as [Hold | [_ Hnew]].
    - rewrite Forall_forall in Hthere. apply (Hthere (i, x)).
      rewrite Hsel. apply elem_of_select_instances. simpl. repeat split; try done.
      lia.
    - apply already_cloned_self.
      + rewrite Hi. apply elem_of_app. right. eapply list_elem_of_lookup_2. exact Hnew.
      + eapply Forall_lookup_1 in Hnews; eauto. }
  simpl. split; [exact Hdb|]. intros _.
  eexists. rewrite Htr, Hsucc, Hunn, <- app_assoc. simpl. reflexivity.
Qed.

Lemma second_run_creates_nothing_witness :
  let st := start_state 100 [("a", ok)] in
  let st1 := (on_call clone_A_to_B st).2 in
  length (transfers (db st1)) = 1%nat /\
  db (on_call clone_A_to_B st1).2 = db st1.
Proof.
  intros st st1. split; [reflexivity|].
  refine (proj1 (second_run_creates_nothing clone_A_to_B st Returned st1 _ _ _)).
  - reflexivity.
  - simpl. lia.
  - intros k t [Hk Hlook]. destruct k as [|k].
    + simpl in Hlook. injection Hlook as <-. reflexivity.
    + simpl in Hlook. discriminate Hlook.
Defined.

(** ** What a completed clone records *)

(** C9.  For every transfer a run creates and completes, the Instance
    recorded on the destination store carries the path of the source
    instance as it is (with its file and deletion policy), while the commit
    was made under the bare file name; on a source path that is not the file
    name the two differ. *)
Theorem completed_clone_keeps_source_path :
  (forall (World TM : Type) (Env : Environment World TM)
          (task : Task) (st : State World TM) (k : nat) (t : CloneTransfer),
      created_since st (on_call task st).2 k t ->
      status t = COMPLETED ->
      exists i d n staged_path,
        instances (db st) !! source_instance_id t = Some i /\
        destination_instance_id t = Some d /\
        instances (db (on_call task st).2) !! d = Some n /\
        path n = path i /\ file n = file i /\
        store n = destination_store_id t /\
        deletion_policy n = deletion_policy i /\
        CallCommit staged_path (file_name (file i)) ∈ trace (on_call task st).2) /\
  (let st' := (on_call clone_A_to_B (start_state 100 [("a", ok)])).2 in
   path <$> instances (db st') !! 1%nat = Some "2459000/F" /\
   CallCommit "staging/F" "F" ∈ trace st').
Proof.
  split.
  - intros World TM Env task st k t. unfold created_since.
    pose proof (on_call_run task st) as HR.
    destruct (on_call task st) as [out st1]. simpl in *. intros [Hk Hlook] Hc.
    destruct HR as [name _
                   | store_from from_meta store_to to_meta selected c st' _ _ Hsel _ HP].
    { simpl in Hlook. apply lookup_lt_Some in Hlook. lia. }
    destruct HP as [_ _ (newt & Ht & _ & Hrec & _) _]. simpl in *.
    rewrite Ht, lookup_app_r in Hlook by lia.
    eapply Forall_lookup_1 in Hrec; eauto.
    destruct (Hrec Hc)
      as (i & d & n & sp & Hin & Hd & Hn & Hp & Hf & Hst & Hdp & Hcommit).
    rewrite Hsel in Hin. apply elem_of_select_instances in Hin as [Hi _].
    exists i, d, n, sp. repeat split; try done.
    apply elem_of_app. by left.
  - split; [reflexivity|]. vm_compute. set_solver.
Qed.

Lemma completed_clone_keeps_source_path_witness :
  let st := start_state 100 [("a", ok)] in
  exists i n,
    instances (db st) !! 0%nat = Some i /\
    instances (db (on_call clone_A_to_B st).2) !! 1%nat = Some n /\
    path n = path i.
Proof.
  intros st.
  destruct (proj1 completed_clone_keeps_source_path _ _ _ clone_A_to_B st 0%nat
              {| source_store_id := 0; destination_store_id := 1;
                 source_instance_id := 0; destination_instance_id := Some 1%nat;
                 transfer_manager_name := Some "a"; status := COMPLETED;
                 start_time := 1000010; end_time := Some 1000010 |})
    as (i & d & n & sp & Hi & Hd & Hn & Hp & _).
  - split; [simpl; lia | reflexivity].
  - reflexivity.
  - simpl in Hd. injection Hd as <-. exists i, n. auto.
Defined.

(** ** The books of a run *)

Section RunDetail.
Context {World TM : Type} `{Env : Environment World TM}.

Abbreviation St := (State World TM).

Lemma last_or_cons {A} (x : A) (l : list A) (o : option A) :
  from_option Some o (last (x :: l)) = from_option Some (Some x) (last l).
Proof.
  destruct l as [|a l]; [reflexivity|].
  change (last (x :: a :: l)) with (last (a :: l)).
  destruct (last (a :: l)) eqn:E; [reflexivity|].
  by apply last_None in E.
Qed.

Ltac detail_step IH t0 :=
  match goal with
  | Ht : transfers (db ?st) = ?old ++ [_]
    |- context [transfer_loop _ _ _ _ _ ?s ?n ?st0] =>
      let t' := fresh "t'" in
      let evs := fresh "evs" in
      let H := fresh "H" in
      destruct (IH s n st0 old t0) as (t' & evs & H);
      [ simpl; rewrite ?Ht, ?alter_last; reflexivity
      | simpl in H; destruct H as (-> & -> & -> & Hrow & -> & Hevs & Hatt & -> & Hsucc);
        exists t'; eexists; simpl;
        split; [reflexivity|]; split; [reflexivity|]; split; [reflexivity|];
        split; [destruct Hrow as [-> | ->]; auto|];
        split; [rewrite <- ?app_assoc; reflexivity|] ]
  end.

(** The manager loop, in full: it rewrites only the status of its row, to
    FAILED if at all; it writes loop events only; it goes through every
    manager in order; it leaves in [tm_name] the last manager's name. *)
Lemma transfer_loop_detail store_from i staged_path tms :
  forall success tm_name (st : St) old t,
    transfers (db st) = old ++ [t] ->
    exists t' evs,
      let res := transfer_loop store_from i staged_path (length old) tms
                               success tm_name st in
      stores (db res.2) = stores (db st) /\
      instances (db res.2) = instances (db st) /\
      transfers (db res.2) = old ++ [t'] /\
      (t' = t \/ t' = with_status FAILED t) /\
      trace res.2 = trace st ++ evs /\
      Forall (fun e => is_loop_event e = true) evs /\
      managers_attempted evs = map fst tms /\
      res.1.2 = from_option Some tm_name (last (map fst tms)) /\
      (tms = [] -> res.1.1 = success).
Proof.
  induction tms as [|[n tm] rest IH]; intros success tm_name st old t Ht.
  - exists t, []. simpl. rewrite app_nil_r. repeat split; auto.
  - simpl.
    pose proof (last_or_cons n (map fst rest)) as Hlast.
    destruct (transfer_out store_from (path i) staged_path tm (world st))
      as [[[|]|] w] eqn:Hout; simpl.
    + detail_step IH t.
      split; [rewrite !Forall_app; repeat split; (by repeat constructor) || done|].
      split; [unfold managers_attempted in *; rewrite !omap_app; simpl; by rewrite Hatt|].
      split; [by rewrite Hlast | discriminate].
    + detail_step IH (with_status FAILED t).
      split; [rewrite !Forall_app; repeat split; (by repeat constructor) || done|].
      split; [unfold managers_attempted in *; rewrite !omap_app; simpl; by rewrite Hatt|].
      split; [by rewrite Hlast | discriminate].
    + detail_step IH (with_status FAILED t).
      split; [rewrite !Forall_app; repeat split; (by repeat constructor) || done|].
      split; [unfold managers_attempted in *; rewrite !omap_app; simpl; by rewrite Hatt|].
      split; [by rewrite Hlast | discriminate].
Qed.

(** Every pass of the loop body, in full. *)
Lemma clone_instance_detail store_from store_to tms r c (st : St) :
  PassDetail store_from store_to r c st
             (clone_instance store_from store_to tms r (c, st)).1
             (clone_instance store_from store_to tms r (c, st)).2.
Proof.
  destruct r as [instance_id instance]. unfold clone_instance.
  destruct (already_cloned store_to (file instance) (db st)) eqn:Hthere.
  { by apply DetailSkipped. }
  cbn [add_transfer].
  match goal with
  | |- context [stage ?a ?b ?c ?w] => destruct (stage a b c w) as [[sn sp|] w1] eqn:Hstage
  end.
  2: { eapply DetailCreated; [done | apply TooLarge | ..]; simpl;
       rewrite ?alter_last, <- ?app_assoc, ?app_nil_r; reflexivity. }
  match goal with
  | |- context [transfer_loop ?a ?b ?c ?d ?e ?f ?g ?st0] =>
      destruct (transfer_loop_detail a b c e f g st0 (transfers (db st))
                  (new_transfer store_from store_to instance_id (now (world st))))
        as (t' & evs & Hloop); [ reflexivity |];
      destruct (transfer_loop a b c d e f g st0) as [[success tm_name] st2] eqn:Heq
  end.
  simpl in Hloop.
  destruct Hloop as (Hs & Hi & Ht & Hrow & Htr & Hevs & _ & Hname & Hnone).
  destruct success; cbn [negb].
  2: { eapply DetailCreated; [done | by apply (TransferFailed _ _ _ _ _ evs) | ..]; simpl;
       rewrite ?Hs, ?Hi, ?Ht, ?Htr, ?alter_last, <- ?app_assoc, ?app_nil_r;
       try reflexivity.
       destruct Hrow as [-> | ->]; reflexivity. }
  assert (exists n, tm_name = Some n) as [n ->].
  { destruct tms as [|[n0 tm0] rest]; [by specialize (Hnone eq_refl)|].
    rewrite Hname. simpl map. rewrite last_or_cons.
    destruct (last (map fst rest)); simpl; eauto. }
  match goal with
  | |- context [commit ?a ?b ?c ?w] => destruct (commit a b c w) as [[|] w3] eqn:Hcommit
  end.
  - eapply DetailCreated; [done | by apply (Cloned _ _ _ _ _ evs sn sp n) | ..]; simpl;
      rewrite ?Hs, ?Hi, ?Ht, ?Htr, ?alter_last, <- ?app_assoc;
      try reflexivity.
    destruct Hrow as [-> | ->]; reflexivity.
  - eapply DetailCreated; [done | by apply (CommitRefused _ _ _ _ _ evs sn sp n) | ..]; simpl;
      rewrite ?Hs, ?Hi, ?Ht, ?Htr, ?alter_last, <- ?app_assoc, ?app_nil_r;
      try reflexivity.
    destruct Hrow as [-> | ->]; reflexivity.
Qed.

Lemma count_events_app p (a b : list Event) :
  count_events p (a ++ b) = (count_events p a + count_events p b)%nat.
Proof. unfold count_events. by rewrite List.filter_app, length_app. Qed.

Lemma count_loop_events p (evs : list Event) :
  (forall e, is_loop_event e = true -> p e = false) ->
  Forall (fun e => is_loop_event e = true) evs ->
  count_events p evs = 0%nat.
Proof.
  intros Hp. induction 1 as [|e evs He _ IH]; [reflexivity|].
  unfold count_events in *. simpl. by rewrite (Hp e He).
Qed.

Lemma loop_events_uncounted (evs : list Event) :
  Forall (fun e => is_loop_event e = true) evs ->
  count_events is_stage evs = 0%nat /\ count_events is_commit evs = 0%nat /\
  count_events is_unstage evs = 0%nat /\ count_events is_too_large evs = 0%nat /\
  count_events is_transfer_failed evs = 0%nat.
Proof.
  intros H. repeat split; (apply count_loop_events; [|exact H]);
    intros [] ?; try discriminate; reflexivity.
Qed.

Ltac count_all :=
  rewrite ?count_events_app;
  repeat match goal with
         | H : Forall (fun e => is_loop_event e = true) ?evl |- _ =>
             destruct (loop_events_uncounted evl H) as (-> & -> & -> & -> & ->);
             clear H
         end.

(** The books of one pass that created a transfer. *)
Lemma ending_books store_from store_to r k started (st : St) t news evs :
  Ending store_to r k (new_transfer store_from store_to r.1 started) st t news evs ->
  count_events is_stage evs = 1%nat /\
  count_events is_unstage evs = count_events is_commit evs /\
  (count_events is_too_large evs + count_events is_transfer_failed evs
   + count_events is_commit evs = 1)%nat /\
  length news = (if bool_decide (status t = COMPLETED) then 1 else 0)%nat /\
  (status t = COMPLETED \/ status t = FAILED) /\
  (is_Some (destination_instance_id t) <-> status t = COMPLETED) /\
  (status t = COMPLETED -> is_Some (transfer_manager_name t) /\ is_Some (end_time t)).
Proof.
  intros HE. inversion HE as [|evl Hl|evl sn sp n Hl|evl sn sp n cr en Hl]; subst;
    count_all; simpl.
  all: repeat split; try reflexivity; auto; try discriminate;
    try (intros [? ?]; discriminate); eauto.
Qed.

Lemma ledger_start (st : St) :
  Ledger st st [] {| successful_clones := 0; unnecessary_clones := 0 |}.
Proof.
  split; [done|]. exists [], [], []. rewrite !app_nil_r. simpl.
  repeat split; constructor.
Qed.

Lemma ledger_pass store_from store_to (st0 st1 st2 : St) done r c c' :
  Ledger st0 st1 done c ->
  PassDetail store_from store_to r c st1 c' st2 ->
  Ledger st0 st2 (done ++ [r]) c'.
Proof.
  intros [Hs (news & newt & evs & Hi & Ht & Htr & Hn & Hsi & Hsc & H1 & H2 & H3 & Hrows)] HP.
  destruct HP as [_ -> -> | t news' evs' _ HE Hs' Hi' Ht' Htr' ->].
  - split; [done|]. exists news, newt, (evs ++ [LogAlreadyExists]). simpl.
    rewrite Hi, Ht, Htr, <- app_assoc, length_app. count_all.
    unfold count_events in *. simpl.
    repeat split; try done; lia.
  - apply ending_books in HE as (E1 & E2 & E3 & E4 & E5 & E6 & E7).
    split; [by rewrite Hs'|].
    exists (news ++ news'), (newt ++ [t]), (evs ++ evs').
    rewrite Hi', Ht', Htr', Hi, Ht, Htr, <- !app_assoc, !length_app.
    unfold count_status in *. rewrite List.filter_app, !length_app. count_all. simpl.
    split; [done|]. split; [done|]. split; [done|].
    destruct (bool_decide (status t = COMPLETED)); simpl in *;
      repeat split; try lia.
    all: apply Forall_app; split; [done|];
      constructor; [exact (conj E5 (conj E6 E7)) | constructor].
Qed.

Lemma ledger_loop store_from store_to tms selected (st : St) :
  let res := instances_loop store_from store_to tms selected
               {| successful_clones := 0; unnecessary_clones := 0 |} st in
  Ledger st res.2 selected res.1.
Proof.
  unfold instances_loop.
  induction selected as [|r done IH] using rev_ind; [apply ledger_start|].
  rewrite foldl_app. simpl.
  destruct (foldl _ _ done) as [c1 st1] eqn:Hfold. simpl in IH.
  eapply ledger_pass; [exact IH|]. apply clone_instance_detail.
Qed.

End RunDetail.

(** ** The manager loop, whatever the managers answer *)

(** X1.  The manager loop calls [transfer_out] through every transfer manager
    of the destination store, once each and in the order of iteration,
    whatever the earlier ones answered, and the name it leaves in [tm_name]
    is that of the last manager (the name it had, when there is none). *)
Theorem every_manager_is_attempted
    {World TM : Type} `{Env : Environment World TM}
    store_from i staged_path transfer (tms : list (string * TM))
    success tm_name (st : State World TM) :
  let res := transfer_loop store_from i staged_path transfer tms success tm_name st in
  managers_attempted (trace res.2) = managers_attempted (trace st) ++ map fst tms /\
  res.1.2 = from_option Some tm_name (last (map fst tms)).
Proof.
  revert success tm_name st.
  induction tms as [|[n tm] rest IH]; intros success tm_name st.
  - simpl. by rewrite app_nil_r.
  - change (map fst ((n, tm) :: rest)) with (n :: map fst rest).
    rewrite last_or_cons. cbn [transfer_loop].
    destruct (transfer_out store_from (path i) staged_path tm _) as [[[|]|] w];
      cbn [negb];
      match goal with
      | |- context [transfer_loop _ _ _ _ _ ?s ?m ?st0] =>
          destruct (IH s m st0) as [-> ->]
      end;
      (split; [|reflexivity]);
      simpl; unfold managers_attempted; rewrite ?omap_app; simpl;
      by rewrite <- ?app_assoc.
Qed.

(** X2.  When what a transfer answers depends on the manager alone, the
    value of [success] after the loop is the answer of the last manager that
    returned one: a later False replaces an earlier True, and a
    [FileNotFoundError] leaves [success] as it was. *)
Theorem success_is_the_last_answer
    {World TM : Type} `{Env : Environment World TM}
    (answer : TM -> TransferResult)
    store_from i staged_path transfer (tms : list (string * TM))
    success tm_name (st : State World TM) :
  (forall sf p d tm w, (transfer_out sf p d tm w).1 = answer tm) ->
  (transfer_loop store_from i staged_path transfer tms success tm_name st).1.1
  = success_after (map (fun x => answer x.2) tms) success.
Proof.
  intros Hans. revert success tm_name st.
  induction tms as [|[n tm] rest IH]; intros success tm_name st; simpl; [reflexivity|].
  pose proof (Hans store_from (path i) staged_path tm
                (world (emit (CallTransferOut (path i) staged_path n) st))) as Ha.
  destruct (transfer_out store_from (path i) staged_path tm _) as [a w].
  simpl in Ha. subst a. destruct (answer tm) as [[|]|]; simpl; apply IH.
Qed.

Lemma success_is_the_last_answer_witness :
  (transfer_loop 0 instance_F_on_A "staging/F" 0 [("a", ok); ("b", ko)] false None
     (start_state 100 [("a", ok); ("b", ko)])).1.1 = false.
Proof.
  rewrite (success_is_the_last_answer (fun tm => tm)); [reflexivity|].
  intros sf p d tm w. reflexivity.
Defined.

(** ** A run as a whole *)

Section Whole.
Context {World TM : Type} `{Env : Environment World TM}.

Abbreviation St := (State World TM).

Lemma first_store_None name (l : list (StoreMetadata TM)) : forall id,
  first_store name id l = None <-> Forall (fun s => store_name s <> name) l.
Proof.
  induction l as [|s l IH]; intros id; simpl.
  - split; [constructor | reflexivity].
  - destruct (String.eqb_spec (store_name s) name) as [Heq|Hne].
    + split; [discriminate|]. intros HF. inversion HF. contradiction.
    + rewrite IH. split; [by constructor | by inversion 1].
Qed.

(** Any property kept by every pass of the loop body is kept by the loop. *)
Lemma loop_invariant (P : St -> Prop) store_from store_to tms selected c (st : St) :
  (forall r c1 st1 c2 st2, P st1 -> Pass store_to r c1 st1 c2 st2 -> P st2) ->
  P st -> P (instances_loop store_from store_to tms selected c st).2.
Proof.
  intros Hkeep H0. unfold instances_loop.
  induction selected as [|r done IH] using rev_ind; [exact H0|].
  rewrite foldl_app. simpl.
  destruct (foldl _ (c, st) done) as [c1 st1] eqn:Hfold. simpl in IH.
  eapply Hkeep; [exact IH|]. apply clone_instance_pass.
Qed.

(** The ledger of a run that was not cancelled. *)
Lemma on_call_ledger task (st : St) :
  (on_call task st).1 = Returned ->
  exists c stl selected,
    (on_call task st).2
    = emit (LogSummary (successful_clones c) (length selected) (unnecessary_clones c)) stl /\
    Ledger st stl selected c.
Proof.
  unfold on_call.
  destruct (get_store (clone_from task) (db st)) as [[store_from from_meta]|];
    [destruct (get_store (clone_to task) (db st)) as [[store_to to_meta]|] |];
    try discriminate.
  match goal with
  | |- context [instances_loop ?a ?b ?c ?d ?e ?f] =>
      pose proof (ledger_loop a b c d f) as HL;
      destruct (instances_loop a b c d e f) as [c1 st1]
  end.
  simpl in *. intros _. eauto.
Qed.

Lemma on_call_cancelled task (st : St) :
  (on_call task st).1 = CancelJob ->
  exists name, (on_call task st).2 = emit (LogStoreMissing name) st.
Proof.
  unfold on_call.
  destruct (get_store (clone_from task) (db st)) as [[store_from from_meta]|];
    [destruct (get_store (clone_to task) (db st)) as [[store_to to_meta]|] |];
    simpl; eauto.
  destruct (instances_loop _ _ _ _ _ _). discriminate.
Qed.

Lemma detail_loop_induction (P : list (nat * Instance) -> Counts -> St -> Prop)
    store_from store_to tms selected c (st : St) :
  P [] c st ->
  (forall done r c1 st1 c2 st2,
      P done c1 st1 -> PassDetail store_from store_to r c1 st1 c2 st2 ->
      P (done ++ [r]) c2 st2) ->
  P selected (instances_loop store_from store_to tms selected c st).1
             (instances_loop store_from store_to tms selected c st).2.
Proof.
  intros H0 Hstep. unfold instances_loop.
  induction selected as [|r done IH] using rev_ind; [exact H0|].
  rewrite foldl_app. simpl.
  destruct (foldl _ (c, st) done) as [c1 st1] eqn:Hfold. simpl in IH.
  eapply Hstep; [exact IH|]. apply clone_instance_detail.
Qed.

Lemma first_store_Some name (l : list (StoreMetadata TM)) : forall id k s,
  first_store name id l = Some (k, s) ->
  (id <= k)%nat /\ l !! (k - id)%nat = Some s /\ store_name s = name.
Proof.
  induction l as [|s0 l IH]; intros id k s; simpl; [discriminate|].
  destruct (String.eqb_spec (store_name s0) name) as [Heq|Hne].
  - intros [= <- <-]. rewrite Nat.sub_diag. auto.
  - intros H. apply IH in H as (Hle & Hlook & Hname).
    replace (k - id)%nat with (S (k - S id)) by lia. split; [lia|]. auto.
Qed.

Lemma ending_keeps_origin store_to r k nt (st : St) t news evs :
  Ending store_to r k nt st t news evs ->
  source_store_id t = source_store_id nt /\
  destination_store_id t = destination_store_id nt /\
  source_instance_id t = source_instance_id nt /\
  start_time t = start_time nt.
Proof. by inversion 1. Qed.

End Whole.

(** X3.  A run is cancelled exactly when no store bears the name [clone_from]
    or none bears the name [clone_to]; a cancelled run writes one error line
    and leaves the database and the stores as they were. *)
Theorem missing_store_cancels_the_job
    {World TM : Type} `{Env : Environment World TM} (task : Task) (st : State World TM) :
  ((on_call task st).1 = CancelJob <->
   Forall (fun s => store_name s <> clone_from task) (stores (db st)) \/
   Forall (fun s => store_name s <> clone_to task) (stores (db st))) /\
  ((on_call task st).1 = CancelJob ->
   db (on_call task st).2 = db st /\ world (on_call task st).2 = world st /\
   exists name, (name = clone_from task \/ name = clone_to task) /\
                trace (on_call task st).2 = trace st ++ [LogStoreMissing name]).
Proof.
  rewrite <- !(first_store_None _ _ 0%nat). unfold on_call, get_store.
  destruct (first_store (clone_from task) 0 (stores (db st))) as [[store_from from_meta]|];
    [destruct (first_store (clone_to task) 0 (stores (db st))) as [[store_to to_meta]|] |].
  - destruct (instances_loop _ _ _ _ _ _) as [c st']. simpl.
    split; [|discriminate]. split; [discriminate | intros [?|?]; discriminate].
  - simpl. split; [split; auto|]. intros _. eauto 10.
  - simpl. split; [split; auto|]. intros _. eauto 10.
Qed.

Lemma missing_store_cancels_the_job_witness :
  let task := {| clone_from := "A"; clone_to := "C"; age_in_days := 1 |} in
  let st := start_state 100 [("a", ok)] in
  (on_call task st).1 = CancelJob /\ db (on_call task st).2 = db st.
Proof.
  intros task st.
  assert (H : (on_call task st).1 = CancelJob) by reflexivity.
  split; [exact H|].
  exact (proj1 (proj2 (missing_store_cancels_the_job task st) H)).
Defined.

(** X4.  The summary of a run adds up: with [n] instances selected, [s]
    counted as cloned and [u] as unnecessary, the run created [n - u]
    CloneTransfer rows and [s] Instance rows, [s] is the number of created
    transfers that are COMPLETED, and [s + u] is at most [n]. *)
Theorem summary_adds_up
    {World TM : Type} `{Env : Environment World TM} (task : Task) (st : State World TM) :
  (on_call task st).1 = Returned ->
  exists evs s n u,
    trace (on_call task st).2 = trace st ++ evs ++ [LogSummary s n u] /\
    (s + u <= n)%nat /\
    length (transfers (db (on_call task st).2))
    = (length (transfers (db st)) + (n - u))%nat /\
    length (instances (db (on_call task st).2))
    = (length (instances (db st)) + s)%nat /\
    s = count_status COMPLETED
          (drop (length (transfers (db st))) (transfers (db (on_call task st).2))).
Proof.
  intros HR. destruct (on_call_ledger task st HR) as (c & stl & selected & -> & HL).
  destruct HL as [_ (news & newt & evs & Hi & Ht & Htr & Hn & Hsi & Hsc & _)].
  exists evs, (successful_clones c), (length selected), (unnecessary_clones c).
  simpl. rewrite Hi, Ht, Htr, !length_app, drop_app_length, <- app_assoc.
  assert (count_status COMPLETED newt <= length newt)%nat.
  { unfold count_status. clear. induction newt as [|t l IH]; simpl; [lia|].
    destruct (bool_decide _); simpl; lia. }
  repeat split; try done; lia.
Qed.

Lemma summary_adds_up_witness :
  let st := start_state 100 [("a", ok)] in
  exists evs s n u,
    trace (on_call clone_A_to_B st).2 = trace st ++ evs ++ [LogSummary s n u] /\
    (s + u <= n)%nat.
Proof.
  intros st.
  assert (HR : (on_call clone_A_to_B st).1 = Returned) by reflexivity.
  destruct (summary_adds_up clone_A_to_B st HR) as (evs & s & n & u & Htr & Hle & _).
  exists evs, s, n, u. split; [exact Htr | exact Hle].
Defined.

(** X5.  A run only appends: the stores are as before, and the instances
    and the transfers that were there before the run are still there,
    unchanged and in place, whatever the stores answered. *)
Theorem run_only_appends
    {World TM : Type} `{Env : Environment World TM} (task : Task) (st : State World TM) :
  stores (db (on_call task st).2) = stores (db st) /\
  instances (db st) `prefix_of` instances (db (on_call task st).2) /\
  transfers (db st) `prefix_of` transfers (db (on_call task st).2).
Proof.
  pose proof (on_call_run task st) as HR.
  destruct (on_call task st) as [out st1]. simpl in *.
  destruct HR as [name _ | store_from from_meta store_to to_meta selected c st' _ _ _ _ HP].
  - simpl. repeat split; reflexivity.
  - destruct HP as [Hs (news & Hi & _) (newt & Ht & _) _]. simpl.
    rewrite Hs, Hi, Ht. repeat split; by eexists.
Qed.

(** X6.  If no store holds two instances of one file before a run, none does
    after it: a run never records a second instance of a file on the
    destination store. *)
Theorem one_instance_per_file_is_kept
    {World TM : Type} `{Env : Environment World TM} (task : Task) (st : State World TM) :
  one_instance_per_file (db st) ->
  one_instance_per_file (db (on_call task st).2).
Proof.
  intros H0. unfold on_call.
  destruct (get_store (clone_from task) (db st)) as [[store_from from_meta]|];
    [destruct (get_store (clone_to task) (db st)) as [[store_to to_meta]|] |];
    try exact H0.
  match goal with
  | |- context [instances_loop ?a ?b ?c ?d ?e ?f] =>
      pose proof (loop_invariant (fun s => one_instance_per_file (db s)) a b c d e f) as HL;
      destruct (instances_loop a b c d e f) as [c1 st1]
  end.
  simpl in *. apply HL; [|exact H0]. clear.
  intros r c1 st1 c2 st2 H1 HP.
  destruct HP as [_ -> _ _ | t evs _ _ Hi _ _ _ _
                 | t evs sp ct Hthere _ Hi _ _ _ _ _ _ _ _]; try exact H1.
  - unfold one_instance_per_file. by rewrite Hi.
  - unfold one_instance_per_file. rewrite Hi. intros i j a b Ha Hb Hst Hf.
    assert (Hfresh : forall k x, instances (db st1) !! k = Some x ->
                                 store x = store_to ->
                                 file_name (file x) = file_name (file r.2) -> False).
    { intros k x Hk Hx Hn. unfold already_cloned in Hthere.
      assert (existsb (on_store store_to (file r.2)) (instances (db st1)) = true);
        [|congruence].
      apply existsb_exists. exists x. split.
      - apply list_elem_of_In. by eapply list_elem_of_lookup_2.
      - unfold on_store. rewrite bool_decide_eq_true_2 by done.
        by apply String.eqb_eq. }
    apply lookup_app_Some in Ha as [Ha | [Hia Ha]];
      apply lookup_app_Some in Hb as [Hb | [Hib Hb]].
    + by eapply H1.
    + apply list_lookup_singleton_Some in Hb as [_ <-]. simpl in *.
      destruct (Hfresh i a Ha); congruence.
    + apply list_lookup_singleton_Some in Ha as [_ <-]. simpl in *.
      destruct (Hfresh j b Hb); congruence.
    + apply list_lookup_singleton_Some in Ha as [Ha _].
      apply list_lookup_singleton_Some in Hb as [Hb _]. lia.
Qed.

Lemma one_instance_per_file_is_kept_witness :
  one_instance_per_file
    (db (on_call clone_A_to_B (start_state 100 [("a", ok)])).2).
Proof.
  apply one_instance_per_file_is_kept.
  intros i j a b Ha Hb _ _.
  destruct i as [|i]; [|discriminate Ha]. destruct j as [|j]; [|discriminate Hb].
  reflexivity.
Defined.

(** X7.  When [clone_from] and [clone_to] name the same store, a run clones
    nothing: the database is left as it was and every selected instance is
    counted as unnecessary. *)
Theorem same_store_clones_nothing
    {World TM : Type} `{Env : Environment World TM} (task : Task) (st : State World TM) :
  clone_from task = clone_to task ->
  db (on_call task st).2 = db st /\
  ((on_call task st).1 = Returned ->
   exists n, trace (on_call task st).2
             = trace st ++ replicate n LogAlreadyExists ++ [LogSummary 0 n n]).
Proof.
  intros Hsame. unfold on_call. rewrite <- Hsame.
  destruct (get_store (clone_from task) (db st)) as [[store_from from_meta]|];
    [|split; [reflexivity | discriminate]].
  match goal with
  | |- context [instances_loop ?a ?b ?c ?d ?e ?f] =>
      pose proof (instances_loop_all_there a b c d e f) as HL;
      destruct (instances_loop a b c d e f) as [c1 st1]
  end.
  simpl in HL. destruct HL as (Hsucc & Hunn & Hdb & _ & Htr).
  { apply Forall_forall. intros [i x] Hin.
    apply elem_of_select_instances in Hin as (Hlook & Hstore & _).
    apply already_cloned_self; [by eapply list_elem_of_lookup_2 | exact Hstore]. }
  simpl. split; [exact Hdb|]. intros _.
  eexists. rewrite Htr, Hsucc, Hunn, <- app_assoc. reflexivity.
Qed.

Lemma same_store_clones_nothing_witness :
  let task := {| clone_from := "A"; clone_to := "A"; age_in_days := 1 |} in
  let st := start_state 100 [("a", ok)] in
  db (on_call task st).2 = db st.
Proof.
  intros task st. exact (proj1 (same_store_clones_nothing task st eq_refl)).
Defined.

(** X8.  In the events of a run there is one [stage] call per transfer
    created; the [stage] calls are as many as the too-large refusals, the
    failed transfers and the [commit] calls together; and [unstage] is called
    as often as [commit], so a staging area whose transfer failed is not
    unstaged. *)
Theorem staging_is_accounted_for
    {World TM : Type} `{Env : Environment World TM} (task : Task) (st : State World TM) :
  exists evs,
    trace (on_call task st).2 = trace st ++ evs /\
    (length (transfers (db st)) + count_events is_stage evs)%nat
    = length (transfers (db (on_call task st).2)) /\
    count_events is_unstage evs = count_events is_commit evs /\
    count_events is_stage evs
    = (count_events is_too_large evs + count_events is_transfer_failed evs
       + count_events is_commit evs)%nat.
Proof.
  destruct (on_call task st).1 eqn:Hout.
  - destruct (on_call_cancelled task st Hout) as [name ->]. simpl.
    eexists. split; [reflexivity|]. unfold count_events. simpl. repeat split; lia.
  - destruct (on_call_ledger task st Hout) as (c & stl & selected & -> & HL).
    destruct HL as [_ (news & newt & evs & _ & Ht & Htr & _ & _ & _ & H1 & H2 & H3 & _)].
    exists (evs ++ [LogSummary (successful_clones c) (length selected)
                               (unnecessary_clones c)]).
    simpl. rewrite Ht, Htr, <- app_assoc, length_app, !count_events_app.
    unfold count_events in *. simpl. repeat split; try done; lia.
Qed.

(** X9.  A transfer created by a run has a destination instance exactly when
    it is COMPLETED, and a COMPLETED one also has its manager name and its
    end time; a transfer that failed has no destination instance. *)
Theorem destination_is_set_on_completion
    {World TM : Type} `{Env : Environment World TM}
    (task : Task) (st : State World TM) (k : nat) (t : CloneTransfer) :
  created_since st (on_call task st).2 k t ->
  (is_Some (destination_instance_id t) <-> status t = COMPLETED) /\
  (status t = COMPLETED -> is_Some (transfer_manager_name t) /\ is_Some (end_time t)).
Proof.
  unfold created_since. intros [Hk Hlook].
  destruct (on_call task st).1 eqn:Hout.
  - destruct (on_call_cancelled task st Hout) as [name Heq].
    rewrite Heq in Hlook. simpl in Hlook.
    apply lookup_lt_Some in Hlook. lia.
  - destruct (on_call_ledger task st Hout) as (c & stl & selected & Heq & HL).
    rewrite Heq in Hlook. simpl in Hlook.
    destruct HL as [_ (news & newt & evs & _ & Ht & _ & _ & _ & _ & _ & _ & _ & Hrows)].
    rewrite Ht, lookup_app_r in Hlook by lia.
    eapply Forall_lookup_1 in Hrows; eauto. tauto.
Qed.

Lemma destination_is_set_on_completion_witness :
  let st := start_state 1 [("a", ok)] in
  let t := {| source_store_id := 0; destination_store_id := 1;
              source_instance_id := 0; destination_instance_id := None;
              transfer_manager_name := None; status := FAILED;
              start_time := 1000010; end_time := None |} in
  created_since st (on_call clone_A_to_B st).2 0 t /\
  (is_Some (destination_instance_id t) <-> status t = COMPLETED).
Proof.
  intros st t.
  assert (H : created_since st (on_call clone_A_to_B st).2 0 t).
  { split; [simpl; lia | reflexivity]. }
  split; [exact H|].
  exact (proj1 (destination_is_set_on_completion clone_A_to_B st 0%nat t H)).
Defined.

(** X10.  Every transfer a run creates goes from the store named
    [clone_from] to the store named [clone_to], and its source instance is an
    instance of the [clone_from] store that was created less than
    [age_in_days] days before the run read the clock. *)
Theorem transfers_come_from_the_window
    {World TM : Type} `{Env : Environment World TM}
    (task : Task) (st : State World TM) (k : nat) (t : CloneTransfer) :
  created_since st (on_call task st).2 k t ->
  exists from_meta to_meta i,
    stores (db st) !! source_store_id t = Some from_meta /\
    store_name from_meta = clone_from task /\
    stores (db st) !! destination_store_id t = Some to_meta /\
    store_name to_meta = clone_to task /\
    instances (db st) !! source_instance_id t = Some i /\
    store i = source_store_id t /\
    (now (world st) - age_in_days task * seconds_per_day < created_time i)%Z.
Proof.
  unfold created_since. intros [Hk Hlook]. revert Hlook. unfold on_call.
  destruct (get_store (clone_from task) (db st)) as [[store_from from_meta]|] eqn:Hfrom;
    [destruct (get_store (clone_to task) (db st)) as [[store_to to_meta]|] eqn:Hto |].
  2,3: simpl; intros Hlook; apply lookup_lt_Some in Hlook; lia.
  apply first_store_Some in Hfrom as (_ & Hfrom & Hfn).
  apply first_store_Some in Hto as (_ & Hto & Htn).
  rewrite Nat.sub_0_r in Hfrom, Hto.
  set (selected := select_instances _ _ _).
  pose proof (detail_loop_induction
    (fun done _ s =>
       exists newt, transfers (db s) = transfers (db st) ++ newt /\
         Forall (fun t => source_store_id t = store_from /\
                          destination_store_id t = store_to /\
                          exists i, (source_instance_id t, i) ∈ done) newt)
    store_from store_to (transfer_managers to_meta) selected
    {| successful_clones := 0; unnecessary_clones := 0 |} st) as HL.
  destruct (instances_loop _ _ _ _ _ _) as [c1 st1]. simpl in *.
  destruct HL as (newt & Ht & Hall).
  { exists []. by rewrite app_nil_r. }
  { intros done r c2 st2 c3 st3 (newt & Ht & Hall) HP.
    assert (Hmore : Forall (fun t => source_store_id t = store_from /\
                          destination_store_id t = store_to /\
                          exists i, (source_instance_id t, i) ∈ done ++ [r]) newt).
    { eapply Forall_impl; [exact Hall|]. intros t0 (? & ? & i & Hi).
      repeat split; try done. exists i. apply elem_of_app. by left. }
    destruct HP as [_ -> _ | t0 news evs _ HE _ _ Ht' _ _].
    - exists newt. by split.
    - exists (newt ++ [t0]). rewrite Ht', Ht, <- app_assoc. split; [done|].
      apply Forall_app. split; [exact Hmore|]. constructor; [|constructor].
      apply ending_keeps_origin in HE as (-> & -> & -> & _). simpl.
      repeat split. exists r.2. apply elem_of_app. right. destruct r. by constructor. }
  intros Hlook. rewrite Ht, lookup_app_r in Hlook by lia.
  eapply Forall_lookup_1 in Hall; eauto.
  destruct Hall as (Hsf & Hst & i & Hi).
  apply elem_of_select_instances in Hi as (Hi & Hstore & Hwin).
  exists from_meta, to_meta, i. rewrite Hsf, Hst. repeat split; done.
Qed.

Lemma transfers_come_from_the_window_witness :
  let st := start_state 1 [("a", ok)] in
  let t := {| source_store_id := 0; destination_store_id := 1;
              source_instance_id := 0; destination_instance_id := None;
              transfer_manager_name := None; status := FAILED;
              start_time := 1000010; end_time := None |} in
  exists i, instances (db st) !! source_instance_id t = Some i /\
            (now (world st) - 1 * seconds_per_day < created_time i)%Z.
Proof.
  intros st t.
  destruct (transfers_come_from_the_window clone_A_to_B st 0%nat t)
    as (fm & tm & i & _ & _ & _ & _ & Hi & _ & Hwin).
  - split; [simpl; lia | reflexivity].
  - exists i. split; [exact Hi | exact Hwin].
Defined.

End CloneFacts.

(* ===================================================================== *)
(** * Properties of the search compiler and of the standing orders        *)
(* ===================================================================== *)

Module SearchFacts.
Import Search.

(** ** Comparisons of rationals *)

Lemma Qltb_lt x y : Qltb x y = true <-> (x < y)%Q.
Proof.
  unfold Qltb. rewrite Qlt_alt. destruct (x ?= y)%Q; split; congruence.
Qed.





(** What the two range expressions say of a number [x]. *)
Lemma in_range_number (lo hi x : Q) :
  num_compare IsGe x lo && (num_compare IsLe x hi && true)
  = Qle_bool lo x && Qle_bool x hi.
Proof. simpl. by rewrite andb_true_r. Qed.


(** ** The range clauses *)









(** ** The files a standing order still has to copy *)

Lemma launched_by_Some self task n :
  launched_by self task = Some n <->
  exists store_path,
    task = UploaderTask store_path (Some (order_name self)) None /\
    basename store_path = n.
Proof.
  destruct task as [store_path oname exc|]; simpl.
  - destruct (bool_decide (Some (order_name self) = oname)) eqn:Hn;
      destruct (bool_decide (exc = None)) eqn:He; simpl;
      try apply bool_decide_eq_true in Hn; try apply bool_decide_eq_true in He;
      try apply bool_decide_eq_false in Hn; try apply bool_decide_eq_false in He.
    + subst. split.
      * intros [= <-]. by exists store_path.
      * intros (p & [= ->] & <-). reflexivity.
    + split; [discriminate|]. intros (p & Heq & _). inversion Heq. contradiction.
    + split; [discriminate|]. intros (p & Heq & _). inversion Heq. congruence.
    + split; [discriminate|]. intros (p & Heq & _). inversion Heq. congruence.
  - split; [discriminate|]. intros (p & Hp & _). discriminate.
Qed.

Lemma elem_of_already_launched self tasks n :
  n ∈ already_launched self tasks <-> 
  exists store_path,
    UploaderTask store_path (Some (order_name self)) None ∈ tasks /\
    basename store_path = n.
Proof.
  unfold already_launched. rewrite elem_of_list_to_set, list_elem_of_omap. split.
  - intros (task & Hin & Hl). apply launched_by_Some in Hl as (p & -> & Hp). eauto.
  - intros (p & Hin & Hp). eexists. split; [exact Hin|].
    apply launched_by_Some. eauto.
Qed.

Lemma holds_name_in_events t etype f :
  holds_for_file t (name_in_events etype) f = true <-> bears_event t etype f.
Proof.
  simpl. rewrite existsb_exists. unfold bears_event. split.
  - intros (ev & Hin & H). apply andb_true_iff in H as [H1 H2].
    apply String.eqb_eq in H1, H2. exists ev. by rewrite list_elem_of_In.
  - intros (ev & Hin & H1 & H2). exists ev. rewrite <- list_elem_of_In.
    split; [done|]. apply andb_true_iff. by rewrite !String.eqb_eq.
Qed.

Lemma filter_twice {A} (g h : A -> bool) (l : list A) :
  List.filter g (List.filter h l) = List.filter (fun x => h x && g x) l.
Proof.
  induction l as [|x l IH]; [reflexivity|].
  simpl. destruct (h x); simpl; [|exact IH].
  destruct (g x); by rewrite IH.
Qed.

(** C8.  When the search of a standing order compiles, [get_files_to_copy]
    yields, in the order of the file table, exactly the files that the
    compiled search selects, that bear no event of type
    [standing_order_succeeded:<order name>], and whose name is not the
    basename of the [store_path] of an uploader task of this order that
    raised no exception; a file whose tasks for this order all raised is
    therefore yielded again. *)
Theorem get_files_to_copy_exact loads utcnow self w q :
  compile_search loads utcnow (search self) "files" = Ok q ->
  exists files keep,
    get_files_to_copy loads utcnow self w = Ok files /\
    files = List.filter keep (all_files (tables w)) /\
    forall f,
      f ∈ files <->
      f ∈ all_files (tables w) /\
      selects_file (tables w) q f = true /\
      ~ bears_event (tables w) ("standing_order_succeeded:" +:+ order_name self) f /\
      ~ has_live_copy_task (tasks w) (order_name self) f.
Proof.
  intros Hq. unfold get_files_to_copy. rewrite Hq. simpl.
  unfold query_files. rewrite filter_twice.
  do 2 eexists. split; [reflexivity|]. split; [reflexivity|].
  rewrite <- filter_twice.
  intros f. rewrite !list_elem_of_In, !filter_In.
  unfold selects_file at 1, filter_by. simpl.
    rewrite forallb_app, andb_true_iff, bool_decide_eq_true. simpl.
    rewrite andb_true_r, negb_true_iff, <- not_true_iff_false.
    pose proof (holds_name_in_events (tables w) (event_type self) f) as He.
    simpl in He. rewrite He.
    rewrite elem_of_already_launched. unfold selects_file, has_live_copy_task, event_type.
    tauto.
Qed.

Lemma get_files_to_copy_exact_witness :
  exists files,
    get_files_to_copy sample_loads 0 sample_order sample_librarian = Ok files /\
    (sample_file "d.uv" ∈ files <->
     sample_file "d.uv" ∈ all_files sample_tables /\
     selects_file sample_tables
       {| kind := FileQuery; criteria := [and_ [like File_name "%.uv"]] |}
       (sample_file "d.uv") = true /\
     ~ bears_event sample_tables "standing_order_succeeded:to-nrao" (sample_file "d.uv") /\
     ~ has_live_copy_task (tasks sample_librarian) "to-nrao" (sample_file "d.uv")).
Proof.
  destruct (get_files_to_copy_exact sample_loads 0 sample_order sample_librarian
              {| kind := FileQuery; criteria := [and_ [like File_name "%.uv"]] |})
    as (files & keep & Hget & _ & Hiff).
  - vm_compute. reflexivity.
  - exists files. split; [exact Hget | exact (Hiff (sample_file "d.uv"))].
Defined.

(** ** The rate limit of the manager *)

Lemma Qltb_false x y : Qltb x y = false <-> ~ (x < y)%Q.
Proof. rewrite <- Qltb_lt. symmetry. apply not_true_iff_false. Qed.


Lemma run_searches_manager loads launch now self w :
  (run_searches loads launch now self w).1.2
  = {| last_check := now; launch_queued := launch_queued self |}.
Proof. unfold run_searches. by destruct (evaluate_all _ _ _ _ _) as [[|] ?]. Qed.

Lemma run_searches_not_skipped loads launch now self w :
  (run_searches loads launch now self w).1.1 <> Ok false.
Proof. unfold run_searches. by destruct (evaluate_all _ _ _ _ _) as [[|] ?]. Qed.


(** A call made too soon after the last check does nothing. *)
Lemma maybe_launch_copies_too_soon loads launch cfg tm_hour now self w :
  (now - last_check self < MIN_STANDING_ORDER_INTERVAL)%Q ->
  maybe_launch_copies loads launch cfg tm_hour now self w = (Ok false, self, w).
Proof.
  intros Hsoon%Qltb_lt. unfold maybe_launch_copies. by rewrite Hsoon.
Qed.

(** *** What a round writes into the log *)













(** ** The operating mode *)




(** ** Standing orders are validated before they are committed *)

Lemma _compile_clause_unfold clauses name payload :
  _compile_clause clauses name payload
  = match clauses !! name with
    | None => Raise (UnrecognizedClause name)
    | Some impl =>
        call impl
             (match payload with
              | JDict items => compile_items clauses items
              | _ => Ok []
              end) name payload
    end.
Proof. destruct payload; reflexivity. Qed.

Lemma is_ok_bind {A B} (r : Result A) (k : A -> Result B) :
  (forall a, is_ok (k a) = true) -> is_ok (r ≫= k) = is_ok r.
Proof. intros Hk. destruct r; simpl; [apply Hk | reflexivity]. Qed.

Lemma validate_is_ok loads utcnow self :
  is_ok (_validate loads utcnow self)
  = is_ok (compile_search loads utcnow (search self) "files").
Proof. unfold _validate. by rewrite is_ok_bind. Qed.







(** ** What the compiler accepts and what it raises *)

Lemma is_ok_Ok {A} (r : Result A) : is_ok r = true <-> exists a, r = Ok a.
Proof. destruct r; simpl; split; eauto; try discriminate. intros [? ?]; discriminate. Qed.

(** The sub-clauses of a [dict] compile one by one, and the first that
    raises decides. *)
Lemma compile_items_Ok clauses items es :
  compile_items clauses items = Ok es <->
  Forall2 (fun kv e => _compile_clause clauses kv.1 kv.2 = Ok e) items es.
Proof.
  revert es. induction items as [|[n p] rest IH]; intros es; simpl.
  - split; [intros [= <-]; constructor | by inversion 1].
  - destruct (_compile_clause clauses n p) as [e|err] eqn:He; simpl.
    + destruct (compile_items clauses rest) as [es'|err] eqn:Hes; simpl.
      * split.
        -- intros [= <-]. constructor; [done | by apply IH].
        -- inversion 1 as [|? ? ? ? H1 H2]; subst. simpl in H1.
           apply IH in H2. congruence.
      * split; [discriminate|]. inversion 1 as [|? ? ? ? H1 H2]; subst.
        apply IH in H2. discriminate.
    + split; [discriminate|]. inversion 1 as [|? ? ? ? H1 H2]; subst.
      simpl in H1. congruence.
Qed.

Lemma compile_items_Raise clauses before n p after err :
  Forall (fun kv => is_ok (_compile_clause clauses kv.1 kv.2) = true) before ->
  _compile_clause clauses n p = Raise err ->
  compile_items clauses (before ++ (n, p) :: after) = Raise err.
Proof.
  intros Hb Herr. induction Hb as [|[n0 p0] rest H0 _ IH]; simpl.
  - by rewrite Herr.
  - simpl in H0. apply is_ok_Ok in H0 as [e ->]. simpl. by rewrite IH.
Qed.

(** X11.  A search compiles to the conjunction of its clauses, compiled in
    the order of the items; when a clause does not compile, the search does
    not either, and it raises the error of the first clause that fails:
    no clause is dropped.  (For any compiler whose [and] clause is
    [_do_and].) *)
Theorem search_is_the_conjunction_of_its_clauses
    (clauses : gmap string Impl) (items : list (string * json)) :
  clauses !! "and" = Some DoAnd ->
  (forall es,
      Forall2 (fun kv e => _compile_clause clauses kv.1 kv.2 = Ok e) items es ->
      items <> [] ->
      compile clauses (JDict items) = Ok (and_ es) /\
      forall cls t (row : Row cls),
        holds_for cls t (and_ es) row = true <->
        Forall (fun e => holds_for cls t e row = true) es) /\
  (forall before n p after err,
      items = before ++ (n, p) :: after ->
      Forall (fun kv => is_ok (_compile_clause clauses kv.1 kv.2) = true) before ->
      _compile_clause clauses n p = Raise err ->
      compile clauses (JDict items) = Raise err) /\
  (items = [] -> compile clauses (JDict items) = Raise (BadContents "and" ADict "dict")).
Proof.
  intros Hand. unfold compile. rewrite _compile_clause_unfold, Hand. simpl.
  unfold _do_and. split; [|split].
  - intros es Hes Hne. apply compile_items_Ok in Hes. rewrite Hes.
    destruct items; [done|]. simpl. split; [reflexivity|].
    intros cls t row.
    destruct cls; simpl; by rewrite forallb_forall, Forall_forall;
      setoid_rewrite list_elem_of_In.
  - intros before n p after err -> Hb Herr.
    rewrite (compile_items_Raise _ _ _ _ _ _ Hb Herr).
    by destruct before.
  - by intros ->.
Qed.

Lemma search_is_the_conjunction_of_its_clauses_witness :
  compile (the_file_search_compiler 0)
          (JDict [("name-matches", JUnicode "%.uv"); ("size-is-exactly", JUnicode "x");
                  ("no-such-clause", JNone)])
  = Raise (BadContents "size-is-exactly" AnInteger "unicode").
Proof.
  refine (proj1 (proj2 (search_is_the_conjunction_of_its_clauses
                          (the_file_search_compiler 0) _ _))
                [("name-matches", JUnicode "%.uv")] "size-is-exactly" (JUnicode "x")
                [("no-such-clause", JNone)] _ eq_refl _ _).
  - vm_compute. reflexivity.
  - constructor; [vm_compute; reflexivity | constructor].
  - vm_compute. reflexivity.
Defined.

(** Look a clause up in the table of the file compiler, by computation; the
    four bound methods of the table are kept as they are. *)
Ltac file_lookup u k :=
  let T := eval unfold the_file_search_compiler, FileSearchCompiler
           in (the_file_search_compiler u !! k) in
  let P := eval pattern _do_obs_sub_query, _do_obs_matches,
                        (_do_not_older_than u), (_do_not_newer_than u) in T in
  lazymatch P with
  | ?F ?c1 ?c2 ?c3 ?c4 =>
      let vF := eval vm_compute in F in
      let v := eval cbv beta in (vF c1 c2 c3 c4) in
      let HF := fresh "HF" in
      let H := fresh "Hlookup" in
      assert (HF : F = vF) by (vm_compute; reflexivity);
      assert (H : the_file_search_compiler u !! k = v)
        by exact (f_equal (fun g => g c1 c2 c3 c4) HF);
      rewrite H; clear H HF
  end.

(** Look the clause of the goal up in its table. *)
Ltac lookup_clause :=
  rewrite _compile_clause_unfold;
  lazymatch goal with
  | |- context [the_file_search_compiler ?u !! ?k] => file_lookup u k
  | |- context [?T !! ?k] =>
      let v := eval vm_compute in (T !! k) in
      let H := fresh "Hlookup" in
      assert (H : T !! k = v) by (vm_compute; reflexivity);
      rewrite H; clear H
  end.

(** Go through the attributes of a kind, one goal each. *)
Ltac each_attribute H :=
  simpl in H;
  repeat (apply elem_of_cons in H as [H|H]; [injection H as -> -> -> |]);
  try (by apply elem_of_nil in H).

(** X12.  Every typed clause checks the class of its payload before anything
    else: on a payload of the wrong class the text, integer, numeric and
    range clauses of every attribute raise a [ServerError] that carries the
    name of the clause, what it wants and the class it got. *)
Theorem wrong_payload_is_rejected utcnow cls attr_name attr_type attr_getter payload :
  (attr_name, attr_type, attr_getter) ∈ attrs_of cls ->
  let rejected (suffix : string) (e : Expected) :=
    _compile_clause (compiler_of utcnow cls)
                    (replace_underscores attr_name +:+ suffix) payload
    = Raise (BadContents (replace_underscores attr_name +:+ suffix) e
                         (class_name payload)) in
  (attr_type = string_attr -> (forall s, payload <> JUnicode s) ->
   rejected "-is-exactly" Text /\ rejected "-is-not" Text /\ rejected "-matches" Text) /\
  (attr_type = int_attr -> as_int payload = None ->
   rejected "-is-exactly" AnInteger /\ rejected "-is-not" AnInteger) /\
  (is_numeric attr_type -> as_number payload = None ->
   rejected "-greater-than" Numeric /\ rejected "-less-than" Numeric) /\
  (is_numeric attr_type -> ordered_pair payload = None ->
   rejected "-in-range" TwoNumbers /\ rejected "-not-in-range" TwoNumbers).
Proof.
  intros Hattr rejected. subst rejected.
  destruct cls; each_attribute Hattr.
  all: (split; [|split; [|split]]); intros Hty Hbad;
    try discriminate Hty; try (destruct Hty; discriminate); repeat split;
    lookup_clause; simpl;
    unfold _do_str_is_exactly, _do_str_is_not, _do_str_matches,
      _do_int_is_exactly, _do_int_is_not, _do_num_greater_than, _do_num_less_than,
      _do_num_in_range, _do_num_not_in_range;
    rewrite ?Hbad; try reflexivity;
    destruct payload; try reflexivity; by edestruct Hbad.
Qed.

Lemma wrong_payload_is_rejected_witness :
  _compile_clause (the_obs_search_compiler) "start-time-jd-in-range" (JList [JInt 1])
  = Raise (BadContents "start-time-jd-in-range" TwoNumbers "list").
Proof.
  refine (proj1 (proj2 (proj2 (proj2 (wrong_payload_is_rejected 0 ObservationCls
            "start_time_jd" float_attr None (JList [JInt 1]) _))) _ _)).
  - simpl. apply list_elem_of_In. simpl. tauto.
  - right. reflexivity.
  - reflexivity.
Defined.

(** X13.  [none-of] is the negation of [or]: on every payload the two
    clauses compile or fail together, and when they compile the [none-of]
    expression is the [or] expression negated, so it holds on a row exactly
    when the other does not. *)
Theorem none_of_negates_or utcnow cls payload :
  let C := compiler_of utcnow cls in
  is_ok (_compile_clause C "none-of" payload) = is_ok (_compile_clause C "or" payload) /\
  (forall e, _compile_clause C "or" payload = Ok e ->
             _compile_clause C "none-of" payload = Ok (not_ e) /\
             forall t (row : Row cls),
               holds_for cls t (not_ e) row = negb (holds_for cls t e row)).
Proof.
  destruct cls; simpl; do 2 lookup_clause; simpl; unfold _do_or, _do_none_of;
    destruct (is_filled_dict payload); simpl; try (split; [reflexivity | discriminate]);
    (destruct (match payload with JDict items => _ | _ => _ end) as [l|err]; simpl;
     split; try reflexivity; try discriminate; by intros e [= <-]).
Qed.

(** X14.  A float attribute has no equality clause: [-is-exactly] and
    [-is-not] on a float attribute of observations are unrecognized clauses,
    in the observation compiler and in the file compiler alike. *)
Theorem float_attributes_have_no_equality utcnow cls attr_name attr_getter suffix payload :
  (attr_name, float_attr, attr_getter) ∈ simple_obs_attrs ->
  suffix ∈ ["-is-exactly"; "-is-not"] ->
  _compile_clause (compiler_of utcnow cls)
                  (replace_underscores attr_name +:+ suffix) payload
  = Raise (UnrecognizedClause (replace_underscores attr_name +:+ suffix)).
Proof.
  intros Hattr Hsuffix.
  repeat (apply elem_of_cons in Hsuffix as [->|Hsuffix]);
    try (by apply elem_of_nil in Hsuffix);
    (repeat (apply elem_of_cons in Hattr as [Hattr|Hattr];
             [simplify_eq; try (destruct cls; simpl; lookup_clause; reflexivity) |]);
     try (by apply elem_of_nil in Hattr)).
Qed.

Lemma float_attributes_have_no_equality_witness :
  _compile_clause (the_file_search_compiler 0) "start-time-jd-is-exactly" (JFloat 1)
  = Raise (UnrecognizedClause "start-time-jd-is-exactly").
Proof.
  apply (float_attributes_have_no_equality 0 FileCls "start_time_jd" None "-is-exactly").
  - apply list_elem_of_In. simpl. tauto.
  - apply list_elem_of_In. simpl. tauto.
Defined.

(** X15.  The two aliases of the file compiler: on a text payload
    [name-like] compiles to what [name-matches] compiles to and [source-is]
    to what [source-is-exactly] does; on any other payload each of the four
    raises under its own name. *)
Theorem aliases_compile_alike utcnow payload :
  let cc name := _compile_clause (the_file_search_compiler utcnow) name payload in
  match payload with
  | JUnicode s =>
      cc "name-like" = Ok (like File_name s) /\
      cc "name-matches" = Ok (like File_name s) /\
      cc "source-is" = Ok (compare File_source IsEq (BText s)) /\
      cc "source-is-exactly" = Ok (compare File_source IsEq (BText s))
  | _ =>
      Forall (fun name => cc name = Raise (BadContents name Text (class_name payload)))
             ["name-like"; "name-matches"; "source-is"; "source-is-exactly"]
  end.
Proof.
  destruct payload; cbv zeta; cbn [class_name];
    repeat first [apply conj | apply List.Forall_cons | apply List.Forall_nil];
    lookup_clause; reflexivity.
Qed.

(** The clause names of the observation compiler. *)
Lemma observation_clause_names name :
  is_Some (the_obs_search_compiler !! name) ->
  name ∈ map fst (map_to_list the_obs_search_compiler).
Proof.
  intros [impl H]. apply list_elem_of_fmap. exists (name, impl).
  split; [reflexivity|]. by apply elem_of_map_to_list.
Qed.

(** X16.  Every clause of the observation compiler whose name starts with
    [start-time-jd], [stop-time-jd], [start-lst-hr] or [session-id] is a
    clause of the file compiler too: there it compiles to a test that the
    file's obsid is among the observations the observation clause selects,
    and it raises what the observation clause raises.  [obs-matches] does the
    same with a whole observation search. *)
Theorem observation_clauses_are_proxied utcnow name payload :
  is_Some (the_obs_search_compiler !! name) ->
  existsb (fun pfx => String.prefix pfx name) proxied_prefixes = true ->
  (_compile_clause (the_file_search_compiler utcnow) name payload
   = (e ← _compile_clause the_obs_search_compiler name payload; Ok (obsid_in e))) /\
  (_compile_clause (the_file_search_compiler utcnow) "obs-matches" payload
   = (e ← compile the_obs_search_compiler payload; Ok (obsid_in e))) /\
  (forall t e f,
      holds_for_file t (obsid_in e) f = true <->
      exists o, o ∈ all_observations t /\ obsid o = file_obsid f /\
                holds_for_observation t e o = true).
Proof.
  intros Hname Hpfx. split; [|split].
  - apply observation_clause_names in Hname.
    assert (Hnames : map fst (map_to_list the_obs_search_compiler)
                     = ltac:(let v := eval vm_compute in
                                        (map fst (map_to_list the_obs_search_compiler)) in
                             exact v))
      by (vm_compute; reflexivity).
    rewrite Hnames in Hname. clear Hnames.
    repeat (apply elem_of_cons in Hname as [->|Hname];
            [first [ exfalso; revert Hpfx; vm_compute; discriminate
                   | rewrite (_compile_clause_unfold (the_file_search_compiler utcnow));
                     match goal with
                     | |- context [the_file_search_compiler ?u !! ?k] => file_lookup u k
                     end;
                     cbn [call]; unfold _do_obs_sub_query; reflexivity ] |]).
    by apply elem_of_nil in Hname.
  - rewrite (_compile_clause_unfold (the_file_search_compiler utcnow)).
    file_lookup utcnow "obs-matches".
    cbn [call]. unfold _do_obs_matches. reflexivity.
  - intros t e f. simpl. rewrite existsb_exists. split.
    + intros (o & Hin & H). apply andb_true_iff in H as [H1 H2].
      exists o. rewrite list_elem_of_In. apply Z.eqb_eq in H2. auto.
    + intros (o & Hin & Hid & H). exists o. rewrite <- list_elem_of_In.
      split; [done|]. apply andb_true_iff. by rewrite Z.eqb_eq.
Qed.

Lemma observation_clauses_are_proxied_witness :
  _compile_clause (the_file_search_compiler 0) "session-id-is-exactly" (JInt 3)
  = Ok (obsid_in (compare Observation_session_id IsEq (BNumber (inject_Z 3)))).
Proof.
  rewrite (proj1 (observation_clauses_are_proxied 0 "session-id-is-exactly" (JInt 3)
                    ltac:(vm_compute; eauto) eq_refl)).
  reflexivity.
Defined.

(** *** The age of a file *)

Lemma round_half_away_whole z : round_half_away (inject_Z z) = z.
Proof.
  unfold round_half_away.
  destruct (Qle_bool 0 (inject_Z z)).
  - change ((z * 2 + 1) / 2 = z)%Z.
    rewrite Z.div_add_l by lia. change (1 / 2)%Z with 0%Z. lia.
  - change (- ((- (z * 2 + -1)) / 2) = z)%Z.
    replace (- (z * 2 + -1))%Z with (- z * 2 + 1)%Z by lia.
    rewrite Z.div_add_l by lia. change (1 / 2)%Z with 0%Z. lia.
Qed.

(** A whole number of days makes a [timedelta] of that many days, if it
    holds so many. *)
Lemma timedelta_whole_days days :
  timedelta_days (finite (inject_Z days))
  = if ((- max_delta_days <=? days) && (days <=? max_delta_days))%Z
    then Ok (days * microseconds_per_day # 1000000)
    else Raise OverflowError.
Proof.
  unfold timedelta_days.
  change (inject_Z days * inject_Z microseconds_per_day)%Q
    with (inject_Z (days * microseconds_per_day)).
  rewrite round_half_away_whole, Z.div_mul by discriminate. reflexivity.
Qed.

Lemma whole_days_in_seconds days :
  (days * microseconds_per_day # 1000000 == inject_Z days * 86400)%Q.
Proof. unfold Qeq, microseconds_per_day. simpl. lia. Qed.

Lemma datetime_sub_Ok utcnow delta :
  (datetime_min <= utcnow - delta <= datetime_max)%Q ->
  datetime_sub utcnow delta = Ok (utcnow - delta)%Q.
Proof.
  intros [Hmin Hmax]. unfold datetime_sub.
  apply Qle_bool_iff in Hmin, Hmax. by rewrite Hmin, Hmax.
Qed.

Lemma datetime_sub_Raise utcnow delta :
  ~ (datetime_min <= utcnow - delta <= datetime_max)%Q ->
  datetime_sub utcnow delta = Raise OverflowError.
Proof.
  intros Hout. unfold datetime_sub.
  destruct (Qle_bool datetime_min _) eqn:Hmin; [|reflexivity].
  destruct (Qle_bool _ datetime_max) eqn:Hmax; [|reflexivity].
  apply Qle_bool_iff in Hmin, Hmax. tauto.
Qed.

Lemma as_int_number payload z :
  as_int payload = Some z -> as_number payload = Some (finite (inject_Z z)).
Proof.
  destruct payload; simpl; try discriminate.
  - by intros [= <-].
  - destruct (is_machine_int z0); [by intros [= <-] | discriminate].
Qed.

Lemma ret_bind {A B} (a : A) (k : A -> Result B) : (Ok a ≫= k) = k a.
Proof. reflexivity. Qed.

Lemma file_age_clauses utcnow :
  the_file_search_compiler utcnow !! "not-older-than"
  = Some (BoundMethod (_do_not_older_than utcnow)) /\
  the_file_search_compiler utcnow !! "not-newer-than"
  = Some (BoundMethod (_do_not_newer_than utcnow)).
Proof.
  unfold the_file_search_compiler, FileSearchCompiler. cbv zeta. split.
  - rewrite lookup_insert_ne by done. apply lookup_insert_eq.
  - apply lookup_insert_eq.
Qed.

(** X17.  The two age clauses of the file compiler, on a whole number of
    days.  When a [timedelta] holds that many days and [utcnow] less those
    days is a [datetime], they cut the files at that cutoff:
    [not-older-than] holds on the files created after it, [not-newer-than]
    on those created before it, and no file passes both.  Otherwise both
    clauses raise [OverflowError]. *)
Theorem age_clauses_split_at_the_cutoff utcnow payload days t f :
  as_int payload = Some days ->
  let cutoff := (utcnow - inject_Z days * 86400)%Q in
  let in_range :=
    (- max_delta_days <= days <= max_delta_days)%Z /\
    (datetime_min <= cutoff <= datetime_max)%Q in
  let older := _compile_clause (the_file_search_compiler utcnow) "not-older-than" payload in
  let newer := _compile_clause (the_file_search_compiler utcnow) "not-newer-than" payload in
  (in_range ->
   exists e_young e_old,
     older = Ok e_young /\ newer = Ok e_old /\
     (holds_for_file t e_young f = true <-> (cutoff < create_time f)%Q) /\
     (holds_for_file t e_old f = true <-> (create_time f < cutoff)%Q) /\
     holds_for_file t e_young f && holds_for_file t e_old f = false) /\
  (~ in_range -> older = Raise OverflowError /\ newer = Raise OverflowError).
Proof.
  intros Hint%as_int_number cutoff in_range older newer.
  destruct (file_age_clauses utcnow) as [Holder Hnewer].
  assert (Eo : older = (delta ← timedelta_days (finite (inject_Z days));
                        at_ ← datetime_sub utcnow delta;
                        Ok (compare File_create_time IsGt (BNumber (finite at_))))).
  { subst older. rewrite _compile_clause_unfold, Holder. cbn [call].
    unfold _do_not_older_than. by rewrite Hint. }
  assert (En : newer = (delta ← timedelta_days (finite (inject_Z days));
                        at_ ← datetime_sub utcnow delta;
                        Ok (compare File_create_time IsLt (BNumber (finite at_))))).
  { subst newer. rewrite _compile_clause_unfold, Hnewer. cbn [call].
    unfold _do_not_newer_than. by rewrite Hint. }
  rewrite Eo, En, timedelta_whole_days. clear Eo En older newer Holder Hnewer.
  set (delta := (days * microseconds_per_day # 1000000)%Q).
  assert (Hcut : (utcnow - delta == cutoff)%Q).
  { unfold cutoff, delta, Qminus. apply Qplus_comp; [apply Qeq_refl|].
    apply Qopp_comp, whole_days_in_seconds. }
  assert (E1 : (utcnow - delta <= cutoff)%Q) by (apply Qle_lteq; by right).
  assert (E2 : (cutoff <= utcnow - delta)%Q)
    by (apply Qle_lteq; right; by apply Qeq_sym).
  clear Hcut.
  assert (Hrange : (datetime_min <= utcnow - delta <= datetime_max)%Q
                   <-> (datetime_min <= cutoff <= datetime_max)%Q).
  { split; intros [Hmin Hmax]; split; eauto using Qle_trans. }
  assert (Hafter : (utcnow - delta < create_time f)%Q <-> (cutoff < create_time f)%Q).
  { split; intros H; eauto using Qle_lt_trans. }
  assert (Hbefore : (create_time f < utcnow - delta)%Q <-> (create_time f < cutoff)%Q).
  { split; intros H; eauto using Qlt_le_trans. }
  destruct ((- max_delta_days <=? days) && (days <=? max_delta_days))%Z eqn:Hdays.
  - apply andb_true_iff in Hdays as [Hd1%Z.leb_le Hd2%Z.leb_le].
    rewrite !ret_bind. split.
    + intros [_ Hin%Hrange]. rewrite (datetime_sub_Ok _ _ Hin), !ret_bind.
      do 2 eexists. split; [reflexivity|]. split; [reflexivity|].
      cbn [holds_for_file number_of_file text_of_file compare_with num_compare].
      rewrite !Qltb_lt. split; [exact Hafter|]. split; [exact Hbefore|].
      apply not_true_iff_false. rewrite andb_true_iff, !Qltb_lt.
      intros [H1 H2]. exact (Qlt_irrefl _ (Qlt_trans _ _ _ H1 H2)).
    + intros Hout. rewrite datetime_sub_Raise; [done|].
      intros Hin%Hrange. apply Hout. by split.
  - split; [|done].
    intros [[Hd1%Z.leb_le Hd2%Z.leb_le] _]. by rewrite Hd1, Hd2 in Hdays.
Qed.

Lemma age_clauses_split_at_the_cutoff_witness :
  exists e_young,
    _compile_clause (the_file_search_compiler 86400) "not-older-than" (JInt 1)
    = Ok e_young /\
    (holds_for_file sample_tables e_young (sample_file "a.uv") = true <->
     (86400 - inject_Z 1 * 86400 < create_time (sample_file "a.uv"))%Q).
Proof.
  destruct (proj1 (age_clauses_split_at_the_cutoff 86400 (JInt 1) 1 sample_tables
                     (sample_file "a.uv") eq_refl))
    as (e1 & e2 & H1 & _ & H2 & _).
  - split; [vm_compute; split; discriminate|].
    split; vm_compute; discriminate.
  - exists e1. split; [exact H1 | exact H2].
Defined.

(** *** Comparisons with one value *)

(** X18.  The ordering clauses of a numeric attribute that is read from a
    column (all of them but the two counts) are strict: with a finite
    numeric payload [q], [-greater-than] compiles to a test that holds on
    the rows whose value is above [q], [-less-than] to one that holds on the
    rows whose value is below it, so a row whose value equals [q] passes
    neither. *)
Theorem ordering_clauses_are_strict utcnow cls attr_name attr_type t payload (q : Q) :
  (attr_name, attr_type, None) ∈ attrs_of cls ->
  is_numeric attr_type ->
  as_number payload = Some (finite q) ->
  let clause_name := replace_underscores attr_name in
  exists c,
    call_getter (getter_of cls attr_name None) = Ok (column c) /\
    _compile_clause (compiler_of utcnow cls) (clause_name +:+ "-greater-than") payload
    = Ok (compare c IsGt (BNumber q)) /\
    _compile_clause (compiler_of utcnow cls) (clause_name +:+ "-less-than") payload
    = Ok (compare c IsLt (BNumber q)) /\
    forall row : Row cls,
      exists x, number_of cls t c row = Some x /\
        (holds_for cls t (compare c IsGt (BNumber q)) row = true <-> (q < x)%Q) /\
        (holds_for cls t (compare c IsLt (BNumber q)) row = true <-> (x < q)%Q).
Proof.
  intros Hattr Hnum Hq clause_name. subst clause_name.
  destruct cls; simpl in Hattr;
    repeat (apply elem_of_cons in Hattr as [Hattr|Hattr];
            [simplify_eq;
             try (destruct Hnum; discriminate);
             try (eexists; split; [reflexivity|]; split; [|split];
                  [ simpl compiler_of; lookup_clause; cbn [call];
                    unfold _do_num_greater_than; rewrite Hq; reflexivity
                  | simpl compiler_of; lookup_clause; cbn [call];
                    unfold _do_num_less_than; rewrite Hq; reflexivity
                  | intros row; eexists; split; [reflexivity|];
                    unfold holds_for;
                    cbn [holds_for_file holds_for_observation number_of_file
                         number_of_observation text_of_file compare_with num_compare];
                    by rewrite !Qltb_lt ]) |]);
    by apply elem_of_nil in Hattr.
Qed.

Lemma ordering_clauses_are_strict_witness :
  _compile_clause (the_obs_search_compiler) "duration-less-than" (JFloat 2)
  = Ok (compare Observation_duration IsLt (BNumber 2%Q)).
Proof.
  destruct (ordering_clauses_are_strict 0 ObservationCls "duration" float_attr
              sample_tables (JFloat 2) 2) as (c & Hc & _ & Hlt & _).
  - simpl. apply list_elem_of_In. simpl. tauto.
  - right. reflexivity.
  - reflexivity.
  - injection Hc as <-. exact Hlt.
Defined.

(** X19.  The equality clauses of an integer attribute, with an integer
    payload [z].  When the attribute is read from a column, [-is-exactly]
    holds on the rows whose value is [z] and [-is-not] on all the others.
    The two counts are not: their getter returns an aliased sub-query, which
    Python compares by identity, so [-is-exactly] compiles to a test no row
    passes and [-is-not] to one every row passes, whatever the count is. *)
Theorem integer_equality_clauses utcnow cls t payload z :
  as_int payload = Some z ->
  let cc attr_name suffix :=
    _compile_clause (compiler_of utcnow cls)
                    (replace_underscores attr_name +:+ suffix) payload in
  (forall attr_name,
     (attr_name, int_attr, None) ∈ attrs_of cls ->
     exists c e_is e_is_not,
       call_getter (getter_of cls attr_name None) = Ok (column c) /\
       cc attr_name "-is-exactly" = Ok e_is /\
       cc attr_name "-is-not" = Ok e_is_not /\
       forall row : Row cls,
         exists x, number_of cls t c row = Some (inject_Z x) /\
           (holds_for cls t e_is row = true <-> x = z) /\
           holds_for cls t e_is_not row = negb (holds_for cls t e_is row)) /\
  (forall attr_name attr_getter,
     (attr_name, int_attr, Some attr_getter) ∈ attrs_of cls ->
     cc attr_name "-is-exactly" = Ok (literal false) /\
     cc attr_name "-is-not" = Ok (literal true)).
Proof.
  intros Hz cc. subst cc. cbv beta. split.
  - intros attr_name Hattr.
    destruct cls; simpl in Hattr;
      repeat (apply elem_of_cons in Hattr as [Hattr|Hattr];
              [simplify_eq;
               try (do 3 eexists; split; [reflexivity|]; split; [|split];
                    [ simpl compiler_of; lookup_clause; cbn [call];
                      unfold _do_int_is_exactly; rewrite Hz; reflexivity
                    | simpl compiler_of; lookup_clause; cbn [call];
                      unfold _do_int_is_not; rewrite Hz; reflexivity
                    | intros row; eexists; split; [reflexivity|];
                      unfold holds_for;
                      cbn [holds_for_file holds_for_observation number_of_file
                           number_of_observation text_of_file compare_with num_compare
                           compare_to];
                      split; [|reflexivity];
                      rewrite Qeq_bool_iff; unfold Qeq; simpl; lia ]) |]);
      by apply elem_of_nil in Hattr.
  - intros attr_name attr_getter Hattr.
    destruct cls; simpl in Hattr;
      repeat (apply elem_of_cons in Hattr as [Hattr|Hattr];
              [simplify_eq;
               try (split;
                    [ simpl compiler_of; lookup_clause; cbn [call];
                      unfold _do_int_is_exactly; rewrite Hz; reflexivity
                    | simpl compiler_of; lookup_clause; cbn [call];
                      unfold _do_int_is_not; rewrite Hz; reflexivity ]) |]);
      by apply elem_of_nil in Hattr.
Qed.

Lemma integer_equality_clauses_witness :
  (exists e_is,
     _compile_clause (the_file_search_compiler 0) "size-is-exactly" (JInt 7) = Ok e_is /\
     holds_for_file sample_tables e_is (sample_file "a.uv") = false) /\
  _compile_clause (the_file_search_compiler 0) "num-instances-is-exactly" (JInt 0)
  = Ok (literal false).
Proof.
  split.
  - destruct (proj1 (integer_equality_clauses 0 FileCls sample_tables (JInt 7) 7 eq_refl)
                "size") as (c & e1 & e2 & Hc & H & _ & Hrows).
    + simpl. apply list_elem_of_In. simpl. tauto.
    + exists e1. split; [exact H|].
      injection Hc as <-.
      destruct (Hrows (sample_file "a.uv")) as (x & Hx & Hiff & _).
      apply not_true_iff_false. rewrite Hiff. injection Hx as Hx.
      intros ->. discriminate Hx.
  - refine (proj1 (proj2 (integer_equality_clauses 0 FileCls sample_tables (JInt 0) 0
                            eq_refl) "num-instances" _file_get_num_instances _)).
    simpl. apply list_elem_of_In. simpl. tauto.
Defined.

(** X20.  The text clauses of a file attribute: with a text payload [s],
    [-is-exactly] holds on the files whose value is [s], [-is-not] on all the
    others, and [-matches] on those whose value matches [s] as an SQL
    [LIKE] pattern. *)
Theorem text_clauses utcnow attr_name attr_getter t s :
  (attr_name, string_attr, attr_getter) ∈ simple_file_attrs ->
  let clause_name := replace_underscores attr_name in
  let cc suffix :=
    _compile_clause (the_file_search_compiler utcnow) (clause_name +:+ suffix)
                    (JUnicode s) in
  exists c e_is e_is_not e_matches,
    call_getter (getter_of FileCls attr_name attr_getter) = Ok (column c) /\
    cc "-is-exactly" = Ok e_is /\ cc "-is-not" = Ok e_is_not /\
    cc "-matches" = Ok e_matches /\
    forall f : File,
      exists x, text_of_file c f = Some x /\
        (holds_for_file t e_is f = true <-> x = s) /\
        holds_for_file t e_is_not f = negb (holds_for_file t e_is f) /\
        holds_for_file t e_matches f = sql_like x s.
Proof.
  intros Hattr clause_name cc. subst clause_name cc. cbv beta.
  simpl in Hattr;
    repeat (apply elem_of_cons in Hattr as [Hattr|Hattr];
            [simplify_eq;
             try (do 4 eexists; split; [reflexivity|]; split; [|split; [|split]];
                  [ lookup_clause; reflexivity
                  | lookup_clause; reflexivity
                  | lookup_clause; reflexivity
                  | intros f; eexists; split; [reflexivity|];
                    cbn [holds_for_file number_of_file text_of_file compare_with
                         text_compare];
                    split; [apply String.eqb_eq | split; reflexivity] ]) |]);
    by apply elem_of_nil in Hattr.
Qed.

Lemma text_clauses_witness :
  exists e_matches,
    _compile_clause (the_file_search_compiler 0) "name-matches" (JUnicode "%.uv")
    = Ok e_matches /\
    holds_for_file sample_tables e_matches (sample_file "a.uv")
    = sql_like (name (sample_file "a.uv")) "%.uv".
Proof.
  destruct (text_clauses 0 "name" None sample_tables "%.uv")
    as (c & e1 & e2 & e3 & Hc & _ & _ & H & Hrows).
  - apply list_elem_of_In. simpl. tauto.
  - exists e3. split; [exact H|].
    destruct (Hrows (sample_file "a.uv")) as (x & Hx & _ & _ & Hm).
    injection Hc as <-. injection Hx as <-. exact Hm.
Defined.

(** ** The manager, the timer and the queue *)

(** X21.  A check that is due and that the mode does not forbid runs the
    searches: [last_check] becomes [now] and the call does not answer False.
    A mode other than [normal] and [nighttime] is first reported as
    unrecognized and then treated as [normal]; [nighttime] outside the hours
    8 to 19 runs without a word. *)
Theorem due_check_runs_unless_told_not_to loads launch cfg tm_hour now self w :
  ~ (now - last_check self < MIN_STANDING_ORDER_INTERVAL)%Q ->
  ~ checks_not_wanted cfg tm_hour now ->
  let mode := standing_order_mode cfg in
  let c := maybe_launch_copies loads launch cfg tm_hour now self w in
  c = run_searches loads launch now self
        (if is_text "nighttime" mode || is_text "normal" mode then w
         else emit (UnrecognizedMode mode) w) /\
  last_check c.1.2 = now /\ launch_queued c.1.2 = launch_queued self /\
  c.1.1 <> Ok false.
Proof.
  intros Hdue%Qltb_false Hmode mode c.
  assert (E : c = run_searches loads launch now self
                    (if is_text "nighttime" mode || is_text "normal" mode then w
                     else emit (UnrecognizedMode mode) w)).
  { subst c. unfold maybe_launch_copies. rewrite Hdue. fold mode.
    destruct (is_text "disabled" mode) eqn:Hd.
    { exfalso. apply Hmode. by left. }
    destruct (is_text "nighttime" mode) eqn:Hn; simpl.
    - destruct ((8 <=? tm_hour now)%Z && (tm_hour now <? 20)%Z) eqn:Hh; [|reflexivity].
      exfalso. apply Hmode. right. split; [exact Hn|].
      apply andb_true_iff in Hh as [H8 H20].
      apply Z.leb_le in H8. apply Z.ltb_lt in H20. by split.
    - by destruct (is_text "normal" mode). }
  rewrite E. rewrite run_searches_manager. repeat split.
  apply run_searches_not_skipped.
Qed.

Lemma due_check_runs_unless_told_not_to_witness :
  let c := maybe_launch_copies sample_loads sample_launch (config_with_mode "daytime")
                               utc_hour 5000%Q the_standing_order_manager
                               sample_librarian in
  c = run_searches sample_loads sample_launch 5000%Q the_standing_order_manager
        (emit (UnrecognizedMode (JUnicode "daytime")) sample_librarian) /\
  last_check c.1.2 = 5000%Q.
Proof.
  intros c.
  destruct (due_check_runs_unless_told_not_to sample_loads sample_launch
              (config_with_mode "daytime") utc_hour 5000 the_standing_order_manager
              sample_librarian) as (E & L & _).
  - intros H. vm_compute in H. discriminate H.
  - intros [H | [H _]]; vm_compute in H; discriminate H.
  - split; [exact E | exact L].
Defined.

(** Whether an order's search compiles is read off its text. *)
Lemma order_raises loads launch utcnow bad w e :
  compile_search loads utcnow (search bad) "files" = Raise e ->
  order_maybe_launch_copies loads launch utcnow bad w
  = (Raise e, emit (EvaluatingStandingOrder (order_name bad)) w).
Proof.
  intros Hbad. unfold order_maybe_launch_copies, get_files_to_copy.
  by rewrite Hbad.
Qed.

Lemma order_returns loads launch utcnow o w :
  is_ok (compile_search loads utcnow (search o) "files") = true ->
  exists w', order_maybe_launch_copies loads launch utcnow o w = (Ok tt, w').
Proof.
  intros Hok. unfold order_maybe_launch_copies, get_files_to_copy.
  destruct (compile_search _ _ _ _) as [q|e]; [|discriminate]. simpl. eauto.
Qed.

Lemma evaluate_all_stops loads launch utcnow before bad after e :
  compile_search loads utcnow (search bad) "files" = Raise e ->
  Forall (fun o => is_ok (compile_search loads utcnow (search o) "files") = true) before ->
  forall w,
    (evaluate_all loads launch utcnow (before ++ bad :: after) w).1 = Raise e /\
    evaluate_all loads launch utcnow (before ++ bad :: after) w
    = evaluate_all loads launch utcnow (before ++ [bad]) w.
Proof.
  intros Hbad Hbefore. induction Hbefore as [|o before Ho _ IH]; intros w; simpl.
  - by rewrite (order_raises _ _ _ _ _ _ Hbad).
  - destruct (order_returns loads launch utcnow o w Ho) as [w' ->]. apply IH.
Qed.

(** X22.  A round of the manager stops at the first standing order whose
    search does not compile: the error of that order is raised, the orders
    after it are not looked at, and [last_check] is already set to [now], so
    the next round is twenty minutes away all the same. *)
Theorem failing_order_stops_the_round loads launch now self w before bad after e :
  standing_orders w = before ++ bad :: after ->
  Forall (fun o => is_ok (compile_search loads now (search o) "files") = true) before ->
  compile_search loads now (search bad) "files" = Raise e ->
  let r := run_searches loads launch now self w in
  r.1.1 = Raise e /\
  last_check r.1.2 = now /\
  r.2 = (evaluate_all loads launch now (before ++ [bad]) (emit RunningSearches w)).2.
Proof.
  intros Horders Hbefore Hbad r. subst r.
  unfold run_searches. cbv zeta.
  change (standing_orders (emit RunningSearches w)) with (standing_orders w).
  rewrite Horders.
  destruct (evaluate_all_stops loads launch now before bad after e Hbad Hbefore
              (emit RunningSearches w)) as [Hraise Heq].
  rewrite <- Heq.
  destruct (evaluate_all _ _ _ _ _) as [[u|e'] w']; simpl in *; [discriminate|].
  by injection Hraise as ->.
Qed.

Lemma failing_order_stops_the_round_witness :
  let bad := {| order_name := "broken"; search := broken_search; conn_name := "nrao" |} in
  (run_searches sample_loads sample_launch 5000%Q the_standing_order_manager
     (set_standing_orders [sample_order; bad; sample_order] sample_librarian)).1.1
  = Raise (BadContents "name-matches" Text "int").
Proof.
  intros bad.
  refine (proj1 (failing_order_stops_the_round sample_loads sample_launch 5000
                   the_standing_order_manager
                   (set_standing_orders [sample_order; bad; sample_order] sample_librarian)
                   [sample_order] bad [sample_order] _ _ _ _)).
  - reflexivity.
  - constructor; [vm_compute; reflexivity | constructor].
  - vm_compute. reflexivity.
Defined.

(** X23.  Queueing a check twice arms one timer: after the first call the
    manager is marked as queued, and a second call leaves the manager and the
    pending timers as they are.  The first call adds a timer of 90 seconds
    only if none was queued, and touches neither the database nor the
    tasks. *)
Theorem one_timer_per_queued_check m w :
  let q1 := queue_standing_order_copies m w in
  let q2 := queue_standing_order_copies q1.1 q1.2 in
  launch_queued q1.1 = true /\ last_check q1.1 = last_check m /\
  call_later q1.2
  = call_later w ++ (if launch_queued m then [] else [DEFAULT_STANDING_ORDER_DELAY]) /\
  q2.1 = q1.1 /\ call_later q2.2 = call_later q1.2 /\
  (tables q1.2 = tables w /\ standing_orders q1.2 = standing_orders w /\
   tasks q1.2 = tasks w).
Proof.
  unfold queue_standing_order_copies, queue_launch_copy.
  destruct m as [lc [|]]; simpl; rewrite ?app_nil_r; repeat split.
Qed.

(** X24.  The timer callback.  Fired less than 1200 seconds after the last
    check it changes nothing in the manager and arms itself again, 90
    seconds on.  Fired later it arms nothing itself; if the check returns,
    the manager is no longer marked as queued; if the check raises, the mark
    stays as it was while [last_check] is [now], and with the mark set no
    later request to queue a check arms a timer. *)
Theorem timeout_rearms_only_when_too_soon loads launch cfg tm_hour now self w :
  let r := _launch_copy_timeout loads launch cfg tm_hour now self w in
  let c := maybe_launch_copies loads launch cfg tm_hour now self (emit TimeoutInvoked w) in
  ((now - last_check self < MIN_STANDING_ORDER_INTERVAL)%Q ->
   r = (Ok tt, self,
        schedule DEFAULT_STANDING_ORDER_DELAY
                 (emit ReschedulingTimeout (emit TimeoutInvoked w)))) /\
  (~ (now - last_check self < MIN_STANDING_ORDER_INTERVAL)%Q ->
   r.2 = c.2 /\
   (r.1.1 = Ok tt -> launch_queued r.1.2 = false) /\
   (forall e, r.1.1 = Raise e ->
      last_check r.1.2 = now /\ launch_queued r.1.2 = launch_queued self /\
      (launch_queued self = true ->
       forall w', call_later (queue_standing_order_copies r.1.2 w').2 = call_later w'))).
Proof.
  intros r c. subst r c. unfold _launch_copy_timeout. split.
  - intros Hsoon. by rewrite maybe_launch_copies_too_soon.
  - intros Hdue%Qltb_false. unfold maybe_launch_copies. rewrite Hdue.
    destruct (is_text "disabled" _); [simpl; repeat split; discriminate|].
    destruct (_ && _ && _); [simpl; repeat split; discriminate|].
    match goal with
    | |- context [run_searches ?l ?la ?n ?s ?w0] =>
        pose proof (run_searches_manager l la n s w0) as Hm;
        pose proof (run_searches_not_skipped l la n s w0) as Hs;
        destruct (run_searches l la n s w0) as [[[[|]|e] m'] w']
    end; simpl in *; subst m'; simpl.
    + repeat split; discriminate.
    + done.
    + split; [done|]. split; [discriminate|]. intros e' _. repeat split.
      intros Hq w''. unfold queue_standing_order_copies, queue_launch_copy.
      simpl. by rewrite Hq.
Qed.

Lemma timeout_rearms_only_when_too_soon_witness :
  _launch_copy_timeout sample_loads sample_launch (config_with_mode "normal") utc_hour
                       5600%Q {| last_check := 5000; launch_queued := true |}
                       sample_librarian
  = (Ok tt, {| last_check := 5000; launch_queued := true |},
     schedule DEFAULT_STANDING_ORDER_DELAY
              (emit ReschedulingTimeout (emit TimeoutInvoked sample_librarian))).
Proof.
  apply (proj1 (timeout_rearms_only_when_too_soon sample_loads sample_launch
                  (config_with_mode "normal") utc_hour 5600%Q
                  {| last_check := 5000; launch_queued := true |} sample_librarian)).
  reflexivity.
Defined.

(** ** The administrative operations *)

Lemma unique_names_NoDup l : unique_names l = true <-> NoDup (map order_name l).
Proof. unfold unique_names. by rewrite bool_decide_eq_true. Qed.

Lemma session_commit_Some pending w w' :
  session_commit pending w = Some w' ->
  unique_names pending = true /\ w' = set_standing_orders pending w.
Proof.
  unfold session_commit. destruct (unique_names pending); [|discriminate].
  by intros [= <-].
Qed.

(** Where [first_order] finds its row. *)
Lemma first_order_Some name l : forall id i o,
  first_order name id l = Some (i, o) ->
  exists k, i = (id + k)%nat /\ l !! k = Some o /\ order_name o = name /\
            Forall (fun o' => order_name o' <> name) (take k l).
Proof.
  induction l as [|o' l IH]; intros id i o; simpl; [discriminate|].
  destruct (String.eqb (order_name o') name) eqn:E.
  - intros [= <- <-]. exists 0%nat. apply String.eqb_eq in E.
    split; [lia|]. split; [done|]. split; [done|]. simpl. constructor.
  - intros H. apply IH in H as (k & -> & Hk & Hn & Hbefore).
    exists (S k). split; [lia|]. split; [done|]. split; [done|].
    simpl. constructor; [|done]. by apply String.eqb_neq.
Qed.

Lemma first_order_None name l : forall id,
  first_order name id l = None <-> name ∉ map order_name l.
Proof.
  induction l as [|o l IH]; intros id; simpl.
  - split; [intros _; apply not_elem_of_nil | done].
  - destruct (String.eqb (order_name o) name) eqn:E.
    + apply String.eqb_eq in E. split; [discriminate|].
      intros H. exfalso. apply H. rewrite E. apply elem_of_cons. by left.
    + apply String.eqb_neq in E. rewrite IH, not_elem_of_cons.
      split; [intros H; split; [congruence | done] | by intros [_ H]].
Qed.

Lemma filter_all {A} (p : A -> bool) (l : list A) :
  (forall x, In x l -> p x = true) -> List.filter p l = l.
Proof.
  induction l as [|a l IH]; intros Hall; simpl; [done|].
  rewrite (Hall a) by (by left). f_equal. apply IH. intros x Hx. apply Hall. by right.
Qed.

Lemma delete_is_filter name l : forall k o,
  NoDup (map order_name l) ->
  l !! k = Some o -> order_name o = name ->
  delete k l = List.filter (fun o' => negb (String.eqb (order_name o') name)) l.
Proof.
  induction l as [|o' l IH]; intros k o Hnd Hk Hn; [done|].
  simpl in Hnd. apply NoDup_cons in Hnd as [Hnotin Hnd].
  destruct k as [|k]; simpl in *.
  - injection Hk as ->. rewrite Hn, String.eqb_refl. simpl.
    symmetry. apply filter_all.
    intros o1 Ho1. apply negb_true_iff, String.eqb_neq. intros Heq.
    apply Hnotin. rewrite Hn, <- Heq.
    apply list_elem_of_fmap. exists o1. split; [done|]. by apply list_elem_of_In.
  - assert (order_name o' <> name) as Hne.
    { intros Heq. apply Hnotin. rewrite Heq, <- Hn.
      apply list_elem_of_fmap. exists o. split; [done|]. by eapply list_elem_of_lookup_2. }
    apply String.eqb_neq in Hne. rewrite Hne. simpl. f_equal. by eapply IH.
Qed.

Lemma filter_keeps_all name (l : list StandingOrder) :
  name ∉ map order_name l ->
  List.filter (fun o' => negb (String.eqb (order_name o') name)) l = l.
Proof.
  intros Hnotin. apply filter_all.
  intros o Ho. apply negb_true_iff, String.eqb_neq. intros Heq.
  apply Hnotin. rewrite <- Heq. apply list_elem_of_fmap. exists o.
  split; [done|]. by apply list_elem_of_In.
Qed.

(** X25.  No operation breaks the uniqueness of order names: from a table
    in which no two standing orders bear one name, creating, updating and
    deleting an order each leave such a table. *)
Theorem order_names_stay_unique loads utcnow name new_name new_conn new_search m w :
  unique_names (standing_orders w) = true ->
  unique_names (standing_orders (create_standing_order loads utcnow name m w).2) = true /\
  unique_names (standing_orders
                  (update_standing_order loads utcnow name new_name new_conn new_search
                                         m w).2) = true /\
  unique_names (standing_orders (delete_standing_order name m w).2) = true.
Proof.
  intros Huniq. split; [|split].
  - unfold create_standing_order.
    destruct (String.length name =? 0)%nat; [done|].
    destruct (new_StandingOrder _ _ _ _ _) as [o|]; [|done].
    destruct (_validate _ _ _); [|done].
    destruct (session_commit _ w) as [w'|] eqn:Hc; [|done].
    by apply session_commit_Some in Hc as [Hu ->].
  - unfold update_standing_order.
    destruct (first_order _ _ _) as [[id old]|]; [|done].
    destruct (_validate _ _ _); [|done].
    destruct (session_commit _ w) as [w'|] eqn:Hc; [|done].
    apply session_commit_Some in Hc as [Hu ->].
    unfold queue_standing_order_copies, queue_launch_copy.
    by destruct (launch_queued m).
  - unfold delete_standing_order.
    destruct (first_order _ _ _) as [[id old]|]; [|done]. simpl.
    apply unique_names_NoDup. apply unique_names_NoDup in Huniq.
    eapply sublist_NoDup; [exact Huniq|].
    change (map order_name ?l) with (order_name <$> l).
    rewrite list_fmap_delete. apply sublist_delete.
Qed.

Lemma order_names_stay_unique_witness :
  unique_names (standing_orders
                  (delete_standing_order "to-nrao" the_standing_order_manager
                                         sample_librarian).2) = true.
Proof.
  refine (proj2 (proj2 (order_names_stay_unique sample_loads 0 "to-nrao" "x" "y"
                          uv_search the_standing_order_manager sample_librarian _))).
  reflexivity.
Defined.

(** X26.  Deleting removes the order of that name and nothing else: with
    unique names, the table afterwards is the table before without the
    orders called [name], in the same sequence.  The manager, the tasks, the
    timers and the log are not touched, and the answer says whether there
    was such an order. *)
Theorem delete_removes_the_named_order name m w :
  unique_names (standing_orders w) = true ->
  let r := delete_standing_order name m w in
  standing_orders r.2
  = List.filter (fun o => negb (String.eqb (order_name o) name)) (standing_orders w) /\
  (name ∉ map order_name (standing_orders r.2)) /\
  r.1.2 = m /\
  (tables r.2 = tables w /\ tasks r.2 = tasks w /\
   call_later r.2 = call_later w /\ log r.2 = log w) /\
  flashed r.1.1
  = Some (if bool_decide (name ∈ map order_name (standing_orders w))
          then Deleted name else NoSuchStandingOrder name).
Proof.
  intros Huniq%unique_names_NoDup r. subst r. unfold delete_standing_order.
  assert (Hgone : forall l : list StandingOrder,
             name ∉ map order_name
                    (List.filter (fun o => negb (String.eqb (order_name o) name)) l)).
  { intros l Hin. apply list_elem_of_fmap in Hin as (o & -> & Hin).
    apply list_elem_of_In, filter_In in Hin as [_ Hin].
    apply negb_true_iff, String.eqb_neq in Hin. done. }
  destruct (first_order name 0 (standing_orders w)) as [[id old]|] eqn:Hfirst; simpl.
  - apply first_order_Some in Hfirst as (k & -> & Hk & Hn & _). simpl.
    rewrite (delete_is_filter name _ k old Huniq Hk Hn).
    split; [done|]. split; [apply Hgone|]. repeat split.
    rewrite bool_decide_eq_true_2; [done|].
    apply list_elem_of_fmap. exists old. split; [done|]. by eapply list_elem_of_lookup_2.
  - apply first_order_None in Hfirst.
    rewrite (filter_keeps_all name _ Hfirst). repeat split; try done.
    by rewrite bool_decide_eq_false_2.
Qed.

Lemma delete_removes_the_named_order_witness :
  standing_orders (delete_standing_order "to-nrao" the_standing_order_manager
                                         sample_librarian).2
  = List.filter (fun o => negb (String.eqb (order_name o) "to-nrao"))
                (standing_orders sample_librarian).
Proof.
  apply (proj1 (delete_removes_the_named_order "to-nrao" the_standing_order_manager
                  sample_librarian eq_refl)).
Defined.

(** X27.  A name that is taken is refused.  Creating an order under the
    name of an existing one, or renaming an order to the name of another
    one, fails with the integrity error of the commit whenever the search
    itself compiles, and leaves the server and the manager as they were. *)
Theorem taken_name_is_refused loads utcnow name new_name new_conn new_search m w :
  (name ∈ map order_name (standing_orders w) ->
   is_ok (compile_search loads utcnow default_search "files") = true ->
   name <> "" ->
   create_standing_order loads utcnow name m w
   = ({| flashed := Some (CannotCreate name IntegrityError);
         location := standing_orders_url |}, m, w)) /\
  (name ∈ map order_name (standing_orders w) ->
   new_name ∈ map order_name (standing_orders w) ->
   new_name <> name ->
   is_ok (compile_search loads utcnow new_search "files") = true ->
   update_standing_order loads utcnow name new_name new_conn new_search m w
   = ({| flashed := Some (CannotUpdate name IntegrityError);
         location := standing_orders_url |}, m, w)).
Proof.
  split.
  - intros Hin Hok Hname. unfold create_standing_order.
    destruct name as [|c name']; [done|]. simpl String.length. cbn [Nat.eqb].
    unfold new_StandingOrder.
    pose proof (validate_is_ok loads utcnow
                  {| order_name := String c name'; search := default_search;
                     conn_name := "undefined-connection" |}) as Hv.
    cbn [search] in Hv. rewrite Hok in Hv.
    destruct (_validate _ _ _) as [u|e] eqn:Hv1; [|discriminate].
    cbn [Result_bind mbind bind]. rewrite Hv1.
    unfold session_commit.
    destruct (unique_names _) eqn:Hu; [|done].
    exfalso. apply unique_names_NoDup in Hu. rewrite map_app in Hu.
    apply NoDup_app in Hu as (_ & Hdisj & _). apply (Hdisj _ Hin).
    simpl. apply elem_of_cons. by left.
  - intros Hin Hnew Hne Hok. unfold update_standing_order.
    destruct (first_order name 0 (standing_orders w)) as [[id old]|] eqn:Hfirst.
    2:{ apply first_order_None in Hfirst. contradiction. }
    apply first_order_Some in Hfirst as (k & -> & Hk & Hn & _). simpl.
    pose proof (validate_is_ok loads utcnow
                  {| order_name := new_name; search := new_search;
                     conn_name := new_conn |}) as Hv.
    cbn [search] in Hv. rewrite Hok in Hv.
    destruct (_validate _ _ _) as [u|e] eqn:Hv1; [|discriminate].
    unfold session_commit.
    destruct (unique_names _) eqn:Hu; [|done].
    exfalso. apply unique_names_NoDup in Hu.
    apply list_elem_of_fmap in Hnew as (other & Hother & Hj).
    apply list_elem_of_lookup_1 in Hj as [j Hj].
    assert (j <> k) as Hjk by (intros ->; congruence).
    assert (Hlen : (k < length (standing_orders w))%nat) by (by eapply lookup_lt_Some).
    apply (NoDup_lookup _ j k new_name) in Hu; [done| |].
    + rewrite list_lookup_fmap, list_lookup_insert_ne by done.
      by rewrite Hj, Hother.
    + rewrite list_lookup_fmap, list_lookup_insert_eq by done. done.
Qed.

Lemma taken_name_is_refused_witness :
  create_standing_order sample_loads 0 "to-nrao" the_standing_order_manager
                        sample_librarian
  = ({| flashed := Some (CannotCreate "to-nrao" IntegrityError);
        location := standing_orders_url |},
     the_standing_order_manager, sample_librarian).
Proof.
  apply (proj1 (taken_name_is_refused sample_loads 0 "to-nrao" "x" "y" uv_search
                  the_standing_order_manager sample_librarian)).
  - apply list_elem_of_In. simpl. tauto.
  - vm_compute. reflexivity.
  - discriminate.
Defined.

(** X28.  Of the three operations only a successful update asks for a check
    of the standing orders.  Creating and deleting leave the manager and the
    timers alone.  An update that reports success has replaced the order in
    place by the new name, connection and search, leaves the manager marked
    as queued and has armed the 90 second timer unless one was queued
    already; an update that does not report success changes nothing. *)
Theorem only_an_update_queues_a_check loads utcnow name new_name new_conn new_search m w :
  let created := create_standing_order loads utcnow name m w in
  let deleted := delete_standing_order name m w in
  let updated := update_standing_order loads utcnow name new_name new_conn new_search m w in
  (created.1.2 = m /\ call_later created.2 = call_later w) /\
  (deleted.1.2 = m /\ call_later deleted.2 = call_later w) /\
  (flashed updated.1.1 = Some (Updated new_name) ->
   launch_queued updated.1.2 = true /\
   call_later updated.2
   = call_later w ++ (if launch_queued m then [] else [DEFAULT_STANDING_ORDER_DELAY]) /\
   exists id old,
     first_order name 0 (standing_orders w) = Some (id, old) /\
     standing_orders updated.2
     = <[id := {| order_name := new_name; search := new_search;
                  conn_name := new_conn |}]> (standing_orders w)) /\
  (flashed updated.1.1 <> Some (Updated new_name) ->
   updated.1.2 = m /\ updated.2 = w).
Proof.
  cbv zeta. split; [|split; [|split]].
  - unfold create_standing_order.
    destruct (String.length name =? 0)%nat; [done|].
    destruct (new_StandingOrder _ _ _ _ _) as [o|]; [|done].
    destruct (_validate _ _ _); [|done].
    destruct (session_commit _ w) as [w'|] eqn:Hc; [|done].
    by apply session_commit_Some in Hc as [_ ->].
  - unfold delete_standing_order. by destruct (first_order _ _ _) as [[id old]|].
  - unfold update_standing_order.
    destruct (first_order _ _ _) as [[id old]|]; [|discriminate].
    destruct (_validate _ _ _); [|discriminate].
    destruct (session_commit _ w) as [w'|] eqn:Hc; [|discriminate].
    apply session_commit_Some in Hc as [_ ->]. intros _.
    unfold queue_standing_order_copies, queue_launch_copy.
    destruct (launch_queued m) eqn:Hq; simpl; rewrite ?Hq, ?app_nil_r; eauto 10.
  - unfold update_standing_order.
    destruct (first_order _ _ _) as [[id old]|]; [|done].
    destruct (_validate _ _ _); [|done].
    destruct (session_commit _ w) as [w'|] eqn:Hc; [|done].
    unfold queue_standing_order_copies, queue_launch_copy.
    destruct (launch_queued m); simpl; congruence.
Qed.

Lemma only_an_update_queues_a_check_witness :
  let updated :=
    update_standing_order sample_loads 0 "to-nrao" "to-sdsc" "sdsc" uv_search
                          the_standing_order_manager sample_librarian in
  launch_queued updated.1.2 = true /\
  call_later updated.2 = [DEFAULT_STANDING_ORDER_DELAY].
Proof.
  intros updated.
  destruct (proj1 (proj2 (proj2 (only_an_update_queues_a_check sample_loads 0 "to-nrao"
              "to-sdsc" "sdsc" uv_search the_standing_order_manager sample_librarian)))
              eq_refl) as (Hq & Hl & _).
  split; [exact Hq | exact Hl].
Defined.

(** ** The comments of a search text *)

Lemma chars_app a b :
  list_ascii_of_string (a +:+ b) = list_ascii_of_string a ++ list_ascii_of_string b.
Proof. induction a as [|c a IH]; simpl; [done | by rewrite IH]. Qed.

Lemma before_hash_no_hash line : ~ has_hash (before_hash line).
Proof.
  unfold has_hash. induction line as [|c line IH]; simpl.
  - apply not_elem_of_nil.
  - destruct (Ascii.eqb c "#") eqn:E; simpl; [apply not_elem_of_nil|].
    apply not_elem_of_cons. split; [|exact IH].
    apply Ascii.eqb_neq in E. congruence.
Qed.

Lemma before_hash_id line : ~ has_hash line -> before_hash line = line.
Proof.
  unfold has_hash. induction line as [|c line IH]; simpl; [done|].
  intros [Hc Hrest]%not_elem_of_cons.
  destruct (Ascii.eqb c "#") eqn:E; [apply Ascii.eqb_eq in E; congruence|].
  by rewrite IH.
Qed.

Lemma before_hash_prefix line :
  exists rest, line = before_hash line +:+ rest /\
               (rest = "" \/ exists rest', rest = String "#" rest').
Proof.
  induction line as [|c line (rest & IH & Hrest)]; simpl.
  - exists "". split; [done | by left].
  - destruct (Ascii.eqb c "#") eqn:E.
    + apply Ascii.eqb_eq in E as ->. exists (String "#" line). split; [done|]. eauto.
    + exists rest. split; [|done]. change (String c line = String c (before_hash line +:+ rest)). by rewrite <- IH.
Qed.

Lemma join_no_hash sep lines :
  ~ has_hash sep -> Forall (fun line => ~ has_hash line) lines ->
  ~ has_hash (join sep lines).
Proof.
  unfold has_hash. intros Hsep Hlines.
  induction Hlines as [|line rest Hline Hrest IH]; simpl; [apply not_elem_of_nil|].
  destruct rest as [|next rest]; [exact Hline|].
  change (line ++ sep ++ join sep (next :: rest))%string
    with (line +:+ (sep +:+ join sep (next :: rest))).
  rewrite !chars_app, !elem_of_app. tauto.
Qed.

(** X29.  No [#] reaches the JSON parser: whatever the lines of a search
    text are, the text handed to [json.loads] holds no [#], so a [#] inside
    a string value starts a comment too.  Each line is handed over up to its
    first [#], the rest of the line is dropped, and a text without any [#]
    is handed over line by line as it is. *)
Theorem no_hash_reaches_the_parser splitlines search_string :
  ~ has_hash (without_comments splitlines search_string) /\
  Forall2 (fun line kept =>
             exists dropped, line = kept +:+ dropped /\ ~ has_hash kept /\
                             (dropped = "" \/ exists rest, dropped = String "#" rest))
          (splitlines search_string) (filter_comments splitlines search_string) /\
  (Forall (fun line => ~ has_hash line) (splitlines search_string) ->
   without_comments splitlines search_string = join lf (splitlines search_string)).
Proof.
  unfold without_comments, filter_comments. split; [|split].
  - apply join_no_hash.
    + unfold has_hash. simpl. rewrite elem_of_cons, elem_of_nil.
      intros [H|[]]. discriminate H.
    + apply Forall_forall. intros line Hin.
      apply list_elem_of_In, in_map_iff in Hin as (l & <- & _).
      apply before_hash_no_hash.
  - induction (splitlines search_string) as [|line rest IH]; simpl; constructor; [|done].
    destruct (before_hash_prefix line) as (dropped & Hline & Hdropped).
    exists dropped. split; [done|]. split; [apply before_hash_no_hash | done].
  - intros Hclean. f_equal.
    induction Hclean as [|line rest Hline _ IH]; simpl; [done|].
    by rewrite before_hash_id, IH.
Qed.

End SearchFacts.
